(** * pbeam/aggregations.go: methods and ParDos shared by the DP aggregations

    A shallow embedding of [privacy-on-beam/pbeam/aggregations.go] and the
    properties of its combiners, partition filters and post-processing
    steps.

    Conventions.
    - [int64] is [Z]; conversions between integer types write their
      wrap-around out ([Go.wrap]).
    - [float64] is the binary64 primitive float, so [epsilon / 2] and
      [r < 0] are the IEEE operations Go performs.
    - A nullable pointer to a scalar ([*int64], [*float64]) is an [option]:
      [nil] is [None]; the functions here only test such a pointer against
      nil or read through it.
    - [log.Exitf] ends the process: a computation that reaches it has the
      outcome [Exit]; a nil dereference has the outcome [Panic].
    - A [PCollection] is the list of its elements, a DoFn with an [emit]
      callback is the list of what it emits. *)

From Stdlib Require Import ZArith Floats QArith Lqa.
From stdpp Require Import gmap strings list.

Local Open Scope Z_scope.

(** ** The Go runtime *)

Module Go.

(** Fixed-width integers: [wrap w x] is the [w]-bit two's complement
    value of [x]. *)
Definition wrap (w : Z) (x : Z) : Z :=
  (x + 2 ^ (w - 1)) `mod` 2 ^ w - 2 ^ (w - 1).

Definition int64 : Type := Z.
Definition float64 : Type := float.

Definition int64_range (x : Z) : Prop := - 2 ^ 63 <= x < 2 ^ 63.

(** [int(x)] for [x : int64]; [int] has 64 bits on the platforms the
    pipeline runs on. *)
Definition int_of_int64 (x : int64) : Z := wrap 64 x.

(** [uint32] remainder: both operands are non-negative. *)
Definition uint32_rem (x y : Z) : Z := (x `mod` 2 ^ 32) `mod` y.

(** How a call ends: it returns, the process exits through [log.Exit],
    or the goroutine panics. *)
Inductive outcome (A : Type) : Type :=
| Ok (a : A)
| Exit (msg : string)
| Panic (msg : string).
Arguments Ok {A} a.
Arguments Exit {A} msg.
Arguments Panic {A} msg.

Definition obind {A B : Type} (c : outcome A) (k : A -> outcome B) : outcome B :=
  match c with
  | Ok a => k a
  | Exit msg => Exit msg
  | Panic msg => Panic msg
  end.

Definition is_Ok {A : Type} (c : outcome A) : bool :=
  match c with Ok _ => true | _ => false end.

(** The process state the functions of this file reach: the global
    [math/rand] source, as the tape of the words it will deliver and the
    number of words already drawn. *)
Record World : Type := mkWorld {
  rand_tape : nat -> Z;
  rand_pos : nat
}.

(** Computations that read and advance the process state and may end the
    process. *)
Definition M (A : Type) : Type := World -> outcome (A * World).

Definition ret {A : Type} (a : A) : M A := fun w => Ok (a, w).

Definition bind {A B : Type} (c : M A) (k : A -> M B) : M B :=
  fun w =>
    match c w with
    | Ok (a, w') => k a w'
    | Exit msg => Exit msg
    | Panic msg => Panic msg
    end.

Definition log_Exitf {A : Type} (msg : string) : M A := fun _ => Exit msg.

(** A result together with an [error] value. *)
Inductive result (A : Type) : Type :=
| Success (a : A)
| Failure (err : string).
Arguments Success {A} a.
Arguments Failure {A} err.

(** [*p] for a pointer to a scalar. *)
Definition deref {A : Type} (p : option A) : outcome A :=
  match p with
  | Some x => Ok x
  | None => Panic "invalid memory address or nil pointer dereference"
  end.

End Go.

Import Go.

Notation "'let*' x ':=' c 'in' k" := (Go.bind c (fun x => k))
  (at level 10, x name, c at level 100, k at level 200).
Notation "'let!' x ':=' c 'in' k" := (Go.obind c (fun x => k))
  (at level 10, x name, c at level 100, k at level 200).

(** ** math/rand *)

Module rand.

(** [rand.Uint32()]: the next word of the global source. *)
Definition Uint32 : World -> Z * World :=
  fun w =>
    (rand_tape w (rand_pos w) `mod` 2 ^ 32,
     mkWorld (rand_tape w) (S (rand_pos w))).

End rand.

(** ** The engine: collections and element-wise transforms *)

Module beam.

Definition PCollection (A : Type) : Type := list A.

(** [beam.ParDo] with a DoFn that emits through a callback: the outputs
    of all elements. *)
Definition ParDo {A B : Type} (fn : A -> list B)
    (col : PCollection A) : PCollection B :=
  flat_map fn col.

(** [beam.ParDo] with a DoFn that returns one output per element. *)
Definition ParDo1 {A B : Type} (fn : A -> B)
    (col : PCollection A) : PCollection B :=
  map fn col.

(** [beam.ParDo] with a DoFn that returns one output per element and can
    end the process: the first element that does so ends the transform. *)
Fixpoint ParDo1E {A B : Type} (fn : A -> outcome B)
    (col : PCollection A) : outcome (PCollection B) :=
  match col with
  | [] => Ok []
  | x :: rest =>
      let! out := fn x in
      let! outs := ParDo1E fn rest in
      Ok (out :: outs)
  end.

(** [beam.ParDo] with an emitting DoFn that can end the process. *)
Fixpoint ParDoE {A B : Type} (fn : A -> outcome (list B))
    (col : PCollection A) : outcome (PCollection B) :=
  match col with
  | [] => Ok []
  | x :: rest =>
      let! out := fn x in
      let! outs := ParDoE fn rest in
      Ok (out ++ outs)
  end.

End beam.

(** ** Post-processing of the combiner's output *)

(** [CorrectToInt64]: [return key, *v]. *)
Definition CorrectToInt64 {X : Type} (key : X) (v : option int64)
    : outcome (X * int64) :=
  let! value := deref v in
  Ok (key, value).

(** [CorrectToFloat64]: [return key, *v]. *)
Definition CorrectToFloat64 {X : Type} (key : X) (v : option float64)
    : outcome (X * float64) :=
  let! value := deref v in
  Ok (key, value).

(** [dropThresholdedPartitionsInt64Fn]: emits only when [r != nil]. *)
Definition dropThresholdedPartitionsInt64Fn {V : Type}
    (v : V) (r : option int64) : list (V * int64) :=
  match r with
  | Some x => [(v, x)]
  | None => []
  end.

(** [dropThresholdedPartitionsFloat64Fn]: emits only when [r != nil]. *)
Definition dropThresholdedPartitionsFloat64Fn {V : Type}
    (v : V) (r : option float64) : list (V * float64) :=
  match r with
  | Some x => [(v, x)]
  | None => []
  end.

(** The present results of a stream, unwrapped. *)
Definition present {V A : Type} (r : V * option A) : option (V * A) :=
  match r.2 with
  | Some x => Some (r.1, x)
  | None => None
  end.

(** [clampNegativePartitionsInt64Fn]. *)
Definition clampNegativePartitionsInt64Fn {V : Type}
    (v : V) (r : int64) : V * int64 :=
  if r <? 0 then (v, 0) else (v, r).

(** [clampNegativePartitionsFloat64Fn]. *)
Definition clampNegativePartitionsFloat64Fn {V : Type}
    (v : V) (r : float64) : V * float64 :=
  if PrimFloat.ltb r 0%float then (v, 0%float) else (v, r).

(** ** The noise package, as this file uses it *)

Module noise.

(** [noise.Kind] is an integer type. *)
Definition Kind : Type := Z.

(** The declarations of the package that the combiners name: its two
    kind constants, the [noise.Noise] interface with its nil value, and
    [noise.ToNoise]. *)
Class API : Type := {
  GaussianNoise : Kind;
  LaplaceNoise : Kind;
  Noise : Type;
  nilNoise : Noise;
  ToNoise : Kind -> Noise
}.

End noise.

(** ** The dpagg package, as this file uses it *)

Module dpagg.

Module BoundedSumInt64Options.
Record t `{noise.API} : Type := mk {
  Epsilon : float64;
  Delta : float64;
  MaxPartitionsContributed : int64;
  Lower : int64;
  Upper : int64;
  Noise : noise.Noise
}.
End BoundedSumInt64Options.

Module BoundedSumFloat64Options.
Record t `{noise.API} : Type := mk {
  Epsilon : float64;
  Delta : float64;
  MaxPartitionsContributed : int64;
  Lower : float64;
  Upper : float64;
  Noise : noise.Noise
}.
End BoundedSumFloat64Options.

Module PreAggSelectPartitionOptions.
Record t : Type := mk {
  Epsilon : float64;
  Delta : float64;
  MaxPartitionsContributed : int64
}.
End PreAggSelectPartitionOptions.

(** The two primitives the combiners drive. [BoundedSumInt64],
    [BoundedSumFloat64] and [PreAggSelectPartition] are the objects the
    accumulator's pointers refer to; a method that updates its receiver
    returns the updated object. Every operation may read the process
    state (the noise it draws) and may end the process. *)
Class API `{noise.API} : Type := {
  BoundedSumInt64 : Type;
  NewBoundedSumInt64 : BoundedSumInt64Options.t -> M BoundedSumInt64;
  BoundedSumInt64_Add : BoundedSumInt64 -> int64 -> M BoundedSumInt64;
  BoundedSumInt64_Merge : BoundedSumInt64 -> BoundedSumInt64 -> M BoundedSumInt64;
  BoundedSumInt64_Result : BoundedSumInt64 -> M int64;

  BoundedSumFloat64 : Type;
  NewBoundedSumFloat64 : BoundedSumFloat64Options.t -> M BoundedSumFloat64;
  BoundedSumFloat64_Add : BoundedSumFloat64 -> float64 -> M BoundedSumFloat64;
  BoundedSumFloat64_Merge : BoundedSumFloat64 -> BoundedSumFloat64 -> M BoundedSumFloat64;
  BoundedSumFloat64_Result : BoundedSumFloat64 -> M float64;

  PreAggSelectPartition : Type;
  NewPreAggSelectPartition : PreAggSelectPartitionOptions.t -> M PreAggSelectPartition;
  PreAggSelectPartition_Add : PreAggSelectPartition -> M PreAggSelectPartition;
  PreAggSelectPartition_Merge :
    PreAggSelectPartition -> PreAggSelectPartition -> M PreAggSelectPartition;
  PreAggSelectPartition_Result : PreAggSelectPartition -> M bool
}.

End dpagg.

(** [a || b()]: the right operand runs only when the left one is false. *)
Definition or_else (a : bool) (b : M bool) : M bool :=
  if a then ret true else b.

(** ** The int64 combiner *)

Module boundedSumAccumInt64.
Record t `{dpagg.API} : Type := mk {
  BS : dpagg.BoundedSumInt64;
  SP : dpagg.PreAggSelectPartition;
  PartitionsSpecified : bool
}.
End boundedSumAccumInt64.

Module boundedSumInt64Fn.

Record t `{noise.API} : Type := mk {
  EpsilonNoise : float64;
  EpsilonPartitionSelection : float64;
  DeltaNoise : float64;
  DeltaPartitionSelection : float64;
  MaxPartitionsContributed : int64;
  Lower : int64;
  Upper : int64;
  NoiseKind : noise.Kind;
  noise : noise.Noise;
  PartitionsSpecified : bool
}.

Section Methods.
Context `{dpagg.API}.

Definition Setup (fn : t) : t :=
  mk _ (EpsilonNoise fn) (EpsilonPartitionSelection fn)
     (DeltaNoise fn) (DeltaPartitionSelection fn)
     (MaxPartitionsContributed fn) (Lower fn) (Upper fn) (NoiseKind fn)
     (noise.ToNoise (NoiseKind fn))
     (PartitionsSpecified fn).

Definition CreateAccumulator (fn : t) : M boundedSumAccumInt64.t :=
  let* bs := dpagg.NewBoundedSumInt64
    {| dpagg.BoundedSumInt64Options.Epsilon := EpsilonNoise fn;
       dpagg.BoundedSumInt64Options.Delta := DeltaNoise fn;
       dpagg.BoundedSumInt64Options.MaxPartitionsContributed :=
         MaxPartitionsContributed fn;
       dpagg.BoundedSumInt64Options.Lower := Lower fn;
       dpagg.BoundedSumInt64Options.Upper := Upper fn;
       dpagg.BoundedSumInt64Options.Noise := noise fn |} in
  let* sp := dpagg.NewPreAggSelectPartition
    {| dpagg.PreAggSelectPartitionOptions.Epsilon :=
         EpsilonPartitionSelection fn;
       dpagg.PreAggSelectPartitionOptions.Delta :=
         DeltaPartitionSelection fn;
       dpagg.PreAggSelectPartitionOptions.MaxPartitionsContributed :=
         MaxPartitionsContributed fn |} in
  ret {| boundedSumAccumInt64.PartitionsSpecified := PartitionsSpecified fn;
         boundedSumAccumInt64.BS := bs;
         boundedSumAccumInt64.SP := sp |}.

Definition AddInput (fn : t) (a : boundedSumAccumInt64.t) (value : int64)
    : M boundedSumAccumInt64.t :=
  let* bs := dpagg.BoundedSumInt64_Add (boundedSumAccumInt64.BS a) value in
  let* sp := dpagg.PreAggSelectPartition_Add (boundedSumAccumInt64.SP a) in
  ret {| boundedSumAccumInt64.BS := bs;
         boundedSumAccumInt64.SP := sp;
         boundedSumAccumInt64.PartitionsSpecified :=
           boundedSumAccumInt64.PartitionsSpecified a |}.

Definition MergeAccumulators (fn : t) (a b : boundedSumAccumInt64.t)
    : M boundedSumAccumInt64.t :=
  let* bs := dpagg.BoundedSumInt64_Merge
               (boundedSumAccumInt64.BS a) (boundedSumAccumInt64.BS b) in
  let* sp := dpagg.PreAggSelectPartition_Merge
               (boundedSumAccumInt64.SP a) (boundedSumAccumInt64.SP b) in
  ret {| boundedSumAccumInt64.BS := bs;
         boundedSumAccumInt64.SP := sp;
         boundedSumAccumInt64.PartitionsSpecified :=
           boundedSumAccumInt64.PartitionsSpecified a |}.

Definition ExtractOutput (fn : t) (a : boundedSumAccumInt64.t)
    : M (option int64) :=
  let* result := dpagg.BoundedSumInt64_Result (boundedSumAccumInt64.BS a) in
  let* keep := or_else (boundedSumAccumInt64.PartitionsSpecified a)
                 (dpagg.PreAggSelectPartition_Result
                    (boundedSumAccumInt64.SP a)) in
  if keep then ret (Some result) else ret None.

End Methods.

End boundedSumInt64Fn.

(** [newBoundedSumInt64Fn]. The [noise] field keeps its zero value until
    [Setup]; the exit message is the format's text, without the kind. *)
Definition newBoundedSumInt64Fn `{noise.API} (epsilon delta : float64)
    (maxPartitionsContributed lower upper : int64) (noiseKind : noise.Kind)
    (partitionsSpecified : bool) : outcome boundedSumInt64Fn.t :=
  let fn (deltaNoise deltaPartitionSelection : float64) :=
    {| boundedSumInt64Fn.EpsilonNoise := epsilon / 2;
       boundedSumInt64Fn.EpsilonPartitionSelection := epsilon / 2;
       boundedSumInt64Fn.DeltaNoise := deltaNoise;
       boundedSumInt64Fn.DeltaPartitionSelection := deltaPartitionSelection;
       boundedSumInt64Fn.MaxPartitionsContributed := maxPartitionsContributed;
       boundedSumInt64Fn.Lower := lower;
       boundedSumInt64Fn.Upper := upper;
       boundedSumInt64Fn.NoiseKind := noiseKind;
       boundedSumInt64Fn.noise := noise.nilNoise;
       boundedSumInt64Fn.PartitionsSpecified := partitionsSpecified |}%float in
  if noiseKind =? noise.GaussianNoise then
    Ok (fn (delta / 2) (delta / 2))%float
  else if noiseKind =? noise.LaplaceNoise then
    Ok (fn 0 delta)%float
  else
    Exit "newBoundedSumInt64Fn: unknown noise.Kind is specified. Please specify a valid noise.".

(** ** The float64 combiner *)

Module boundedSumAccumFloat64.
Record t `{dpagg.API} : Type := mk {
  BS : dpagg.BoundedSumFloat64;
  SP : dpagg.PreAggSelectPartition;
  PartitionsSpecified : bool
}.
End boundedSumAccumFloat64.

Module boundedSumFloat64Fn.

Record t `{noise.API} : Type := mk {
  EpsilonNoise : float64;
  EpsilonPartitionSelection : float64;
  DeltaNoise : float64;
  DeltaPartitionSelection : float64;
  MaxPartitionsContributed : int64;
  Lower : float64;
  Upper : float64;
  NoiseKind : noise.Kind;
  noise : noise.Noise;
  PartitionsSpecified : bool
}.

Section Methods.
Context `{dpagg.API}.

Definition Setup (fn : t) : t :=
  mk _ (EpsilonNoise fn) (EpsilonPartitionSelection fn)
     (DeltaNoise fn) (DeltaPartitionSelection fn)
     (MaxPartitionsContributed fn) (Lower fn) (Upper fn) (NoiseKind fn)
     (noise.ToNoise (NoiseKind fn))
     (PartitionsSpecified fn).

Definition CreateAccumulator (fn : t) : M boundedSumAccumFloat64.t :=
  let* bs := dpagg.NewBoundedSumFloat64
    {| dpagg.BoundedSumFloat64Options.Epsilon := EpsilonNoise fn;
       dpagg.BoundedSumFloat64Options.Delta := DeltaNoise fn;
       dpagg.BoundedSumFloat64Options.MaxPartitionsContributed :=
         MaxPartitionsContributed fn;
       dpagg.BoundedSumFloat64Options.Lower := Lower fn;
       dpagg.BoundedSumFloat64Options.Upper := Upper fn;
       dpagg.BoundedSumFloat64Options.Noise := noise fn |} in
  let* sp := dpagg.NewPreAggSelectPartition
    {| dpagg.PreAggSelectPartitionOptions.Epsilon :=
         EpsilonPartitionSelection fn;
       dpagg.PreAggSelectPartitionOptions.Delta :=
         DeltaPartitionSelection fn;
       dpagg.PreAggSelectPartitionOptions.MaxPartitionsContributed :=
         MaxPartitionsContributed fn |} in
  ret {| boundedSumAccumFloat64.BS := bs;
         boundedSumAccumFloat64.SP := sp;
         boundedSumAccumFloat64.PartitionsSpecified := PartitionsSpecified fn |}.

Definition AddInput (fn : t) (a : boundedSumAccumFloat64.t) (value : float64)
    : M boundedSumAccumFloat64.t :=
  let* bs := dpagg.BoundedSumFloat64_Add (boundedSumAccumFloat64.BS a) value in
  let* sp := dpagg.PreAggSelectPartition_Add (boundedSumAccumFloat64.SP a) in
  ret {| boundedSumAccumFloat64.BS := bs;
         boundedSumAccumFloat64.SP := sp;
         boundedSumAccumFloat64.PartitionsSpecified :=
           boundedSumAccumFloat64.PartitionsSpecified a |}.

Definition MergeAccumulators (fn : t) (a b : boundedSumAccumFloat64.t)
    : M boundedSumAccumFloat64.t :=
  let* bs := dpagg.BoundedSumFloat64_Merge
               (boundedSumAccumFloat64.BS a) (boundedSumAccumFloat64.BS b) in
  let* sp := dpagg.PreAggSelectPartition_Merge
               (boundedSumAccumFloat64.SP a) (boundedSumAccumFloat64.SP b) in
  ret {| boundedSumAccumFloat64.BS := bs;
         boundedSumAccumFloat64.SP := sp;
         boundedSumAccumFloat64.PartitionsSpecified :=
           boundedSumAccumFloat64.PartitionsSpecified a |}.

Definition ExtractOutput (fn : t) (a : boundedSumAccumFloat64.t)
    : M (option float64) :=
  let* result := dpagg.BoundedSumFloat64_Result (boundedSumAccumFloat64.BS a) in
  let* keep := or_else (boundedSumAccumFloat64.PartitionsSpecified a)
                 (dpagg.PreAggSelectPartition_Result
                    (boundedSumAccumFloat64.SP a)) in
  if keep then ret (Some result) else ret None.

End Methods.

End boundedSumFloat64Fn.

(** [newBoundedSumFloat64Fn]. The [noise] field keeps its zero value until
    [Setup]; the exit message is the format's text, without the kind. *)
Definition newBoundedSumFloat64Fn `{noise.API} (epsilon delta : float64)
    (maxPartitionsContributed : int64) (lower upper : float64) (noiseKind : noise.Kind)
    (partitionsSpecified : bool) : outcome boundedSumFloat64Fn.t :=
  let fn (deltaNoise deltaPartitionSelection : float64) :=
    {| boundedSumFloat64Fn.EpsilonNoise := epsilon / 2;
       boundedSumFloat64Fn.EpsilonPartitionSelection := epsilon / 2;
       boundedSumFloat64Fn.DeltaNoise := deltaNoise;
       boundedSumFloat64Fn.DeltaPartitionSelection := deltaPartitionSelection;
       boundedSumFloat64Fn.MaxPartitionsContributed := maxPartitionsContributed;
       boundedSumFloat64Fn.Lower := lower;
       boundedSumFloat64Fn.Upper := upper;
       boundedSumFloat64Fn.NoiseKind := noiseKind;
       boundedSumFloat64Fn.noise := noise.nilNoise;
       boundedSumFloat64Fn.PartitionsSpecified := partitionsSpecified |}%float in
  if noiseKind =? noise.GaussianNoise then
    Ok (fn (delta / 2) (delta / 2))%float
  else if noiseKind =? noise.LaplaceNoise then
    Ok (fn 0 delta)%float
  else
    Exit "newBoundedSumFloat64Fn: unknown noise.Kind is specified. Please specify a valid noise.".

(** ** The engine: codecs, side inputs and global combines *)

Module kv.
(** [kv.Pair]: an encoded key with an encoded value, both byte slices
    (as [rekeyInt64Fn] returns them). *)
Record Pair : Type := mk {
  K : list Byte.byte;
  V : list Byte.byte
}.
End kv.

Module codec.

(** What the filters use of the engine's typing and coding:
    [reflect.Type], [typex.FullType] with its [Type] method, the
    dynamically typed elements that travel through the pipeline, and
    [beam.NewElementEncoder]. An encoder returns the bytes it wrote or
    an error. *)
Class API : Type := {
  reflect_Type : Type;
  FullType : Type;
  FullType_Type : FullType -> reflect_Type;
  Value : Type;
  NewElementEncoder : reflect_Type -> Value -> result (list Byte.byte)
}.

(** [beam.ElementEncoder]. *)
Definition ElementEncoder `{API} : Type := Value -> result (list Byte.byte).

(** [beam.EncodedType]. *)
Record EncodedType `{API} : Type := mkEncodedType {
  T : reflect_Type
}.

End codec.

(** [string(b)] for a byte slice [b]. *)
Definition string_of_bytes (b : list Byte.byte) : string :=
  String.string_of_list_byte b.

Record Partition : Type := mkPartition {
  PartitionKey : string
}.

#[global] Instance Partition_eq_dec : EqDecision Partition.
Proof. solve_decision. Defined.

#[global] Instance Partition_countable : Countable Partition :=
  inj_countable' PartitionKey mkPartition (fun p => match p with mkPartition _ => eq_refl end).

(** [m[k]] on a [map[Partition]bool]: a missing key reads as [false]; so
    does every key of a nil map, which reads like the empty one. *)
Definition map_index (m : gmap Partition bool) (k : Partition) : bool :=
  default false (m !! k).

Module side.

(** [partitionsIter(&p)] on a fresh side-input iterator with [p] a nil
    map: [p] receives the first element of the side input, when there is
    one. *)
Definition first (input : beam.PCollection (gmap Partition bool))
    : gmap Partition bool :=
  match input with
  | m :: _ => m
  | [] => ∅
  end.

End side.

Module mapAccum.
Record t : Type := mk {
  PartitionMap : gmap Partition bool
}.
End mapAccum.

(** Makes hashmaps for partitions stored as values. *)
Module partitionsHashMapFn.

Record t `{codec.API} : Type := mk {
  PartitionType : codec.EncodedType;
  partitionEnc : option codec.ElementEncoder
}.

Section Methods.
Context `{codec.API}.

Definition Setup (fn : t) : t :=
  {| PartitionType := PartitionType fn;
     partitionEnc :=
       Some (codec.NewElementEncoder (codec.T (PartitionType fn))) |}.

Definition CreateAccumulator (fn : t) : mapAccum.t :=
  {| mapAccum.PartitionMap := ∅ |}.

Definition AddInput (fn : t) (m : mapAccum.t) (partitionKey : codec.Value)
    : outcome mapAccum.t :=
  match partitionEnc fn with
  | None => Panic "invalid memory address or nil pointer dereference"
  | Some enc =>
      match enc partitionKey with
      | Failure err =>
          Exit "pbeam.partitionsHashMapFn.ProcessElement: couldn't encode partition key"
      | Success partitionBuf =>
          Ok {| mapAccum.PartitionMap :=
                  <[ {| PartitionKey := string_of_bytes partitionBuf |} := true ]>
                    (mapAccum.PartitionMap m) |}
      end
  end.

Definition MergeAccumulators (fn : t) (a b : mapAccum.t) : mapAccum.t :=
  {| mapAccum.PartitionMap :=
       map_fold (fun k _ bm => <[ k := true ]> bm)
         (mapAccum.PartitionMap b) (mapAccum.PartitionMap a) |}.

Definition ExtractOutput (fn : t) (m : mapAccum.t) : gmap Partition bool :=
  mapAccum.PartitionMap m.

End Methods.

End partitionsHashMapFn.

Definition newPartitionsHashMapFn `{codec.API}
    (partitionFullType : codec.FullType) : partitionsHashMapFn.t :=
  {| partitionsHashMapFn.PartitionType :=
       codec.mkEncodedType _ (codec.FullType_Type partitionFullType);
     partitionsHashMapFn.partitionEnc := None |}.

(** [newKVPartitionsHashMapFn] builds a [partitionsHashMapFn] too. *)
Definition newKVPartitionsHashMapFn `{codec.API}
    (partitionType : codec.EncodedType) : partitionsHashMapFn.t :=
  {| partitionsHashMapFn.PartitionType := partitionType;
     partitionsHashMapFn.partitionEnc := None |}.

Module combine.

(** [beam.Combine] with a [partitionsHashMapFn], run on one worker:
    [Setup], then one accumulator that receives every element. A global
    combine is a per-key combine under one fixed key, so an empty input
    has no key and the output collection is empty. *)
Fixpoint add_all `{codec.API} (fn : partitionsHashMapFn.t)
    (m : mapAccum.t) (col : beam.PCollection codec.Value)
    : outcome mapAccum.t :=
  match col with
  | [] => Ok m
  | x :: rest =>
      let! m' := partitionsHashMapFn.AddInput fn m x in
      add_all fn m' rest
  end.

Definition Combine `{codec.API} (fn0 : partitionsHashMapFn.t)
    (col : beam.PCollection codec.Value)
    : outcome (beam.PCollection (gmap Partition bool)) :=
  let fn := partitionsHashMapFn.Setup fn0 in
  match col with
  | [] => Ok []
  | _ =>
      let! m := add_all fn (partitionsHashMapFn.CreateAccumulator fn) col in
      Ok [partitionsHashMapFn.ExtractOutput fn m]
  end.

End combine.

(** The broadcast partition set holds the encoded key [b]: the map a
    filter reads from its side input has [true] under [string(b)]. *)
Definition in_partitions (input : beam.PCollection (gmap Partition bool))
    (b : list Byte.byte) : bool :=
  map_index (side.first input) {| PartitionKey := string_of_bytes b |}.

(** ** The partition-spec filter *)

(** [PrivatePCollection]: the functions of this file read its [col] field
    only. *)
Record PrivatePCollection (A : Type) : Type := mkPrivatePCollection {
  col : beam.PCollection A
}.
Arguments col {A} _.
Arguments mkPrivatePCollection {A} _.

(** [prunePartitionsFn]. Used for sum and mean. *)
Definition prunePartitionsFn {X : Type} (id : X) (pair : kv.Pair)
    (partitionsIter : beam.PCollection (gmap Partition bool))
    : list (X * kv.Pair) :=
  let p := side.first partitionsIter in
  if map_index p {| PartitionKey := string_of_bytes (kv.K pair) |}
  then [(id, pair)]
  else [].

(** [prunePartitionsFnForCount]. Used for count and distinct_id. *)
Module prunePartitionsFnForCount.

Record t `{codec.API} : Type := mk {
  PartitionType : codec.EncodedType;
  partitionEnc : option codec.ElementEncoder
}.

Section Methods.
Context `{codec.API}.

Definition Setup (fn : t) : t :=
  {| PartitionType := PartitionType fn;
     partitionEnc :=
       Some (codec.NewElementEncoder (codec.T (PartitionType fn))) |}.

Definition ProcessElement {X : Type} (fn : t) (id : X)
    (partitionKey : codec.Value)
    (partitionsIter : beam.PCollection (gmap Partition bool))
    : outcome (list (X * codec.Value)) :=
  match partitionEnc fn with
  | None => Panic "invalid memory address or nil pointer dereference"
  | Some enc =>
      match enc partitionKey with
      | Failure err =>
          Exit "pbeam.preparePruneFn.ProcessElement: couldn't encode partition"
      | Success partitionBuf =>
          let partitionsMap := side.first partitionsIter in
          if map_index partitionsMap
               {| PartitionKey := string_of_bytes partitionBuf |}
          then Ok [(id, partitionKey)]
          else Ok []
      end
  end.

End Methods.

End prunePartitionsFnForCount.

Definition newPrunePartitionsFnForCount `{codec.API}
    (partitionType : codec.FullType) : prunePartitionsFnForCount.t :=
  {| prunePartitionsFnForCount.PartitionType :=
       codec.mkEncodedType _ (codec.FullType_Type partitionType);
     prunePartitionsFnForCount.partitionEnc := None |}.

(** [dropUnspecifiedPartitions]. Function for sum and mean. *)
Definition dropUnspecifiedPartitions `{codec.API} {X : Type}
    (partitions : list (beam.PCollection codec.Value))
    (pcol : PrivatePCollection (X * kv.Pair))
    (partitionT : codec.EncodedType)
    : outcome (beam.PCollection (X * kv.Pair)) :=
  if (length partitions =? 1)%nat then
    match partitions !! 0%nat with
    | None => Panic "index out of range"
    | Some partitionsCol =>
        let! partitionsMap :=
          combine.Combine (newKVPartitionsHashMapFn partitionT) partitionsCol in
        Ok (beam.ParDo
              (fun r : X * kv.Pair => prunePartitionsFn r.1 r.2 partitionsMap)
              (col pcol))
    end
  else Ok (col pcol).

(** [dropUnspecifiedPartitionsForCount]. Function for count and
    distinct_id. *)
Definition dropUnspecifiedPartitionsForCount `{codec.API} {X : Type}
    (partitions : list (beam.PCollection codec.Value))
    (pcol : PrivatePCollection (X * codec.Value))
    (partitionT : codec.FullType)
    : outcome (beam.PCollection (X * codec.Value)) :=
  if (length partitions =? 1)%nat then
    match partitions !! 0%nat with
    | None => Panic "index out of range"
    | Some partitionsCol =>
        let! partitionsMap :=
          combine.Combine (newPartitionsHashMapFn partitionT) partitionsCol in
        let fn := prunePartitionsFnForCount.Setup
                    (newPrunePartitionsFnForCount partitionT) in
        beam.ParDoE
          (fun r : X * codec.Value =>
             prunePartitionsFnForCount.ProcessElement fn r.1 r.2 partitionsMap)
          (col pcol)
    end
  else Ok (col pcol).

(** ** Contribution bounding *)

(** [randBool]: both arguments are blank. *)
Definition randBool {V : Type} (_ _ : V) : World -> bool * World :=
  fun w =>
    let (u, w') := rand.Uint32 w in
    (uint32_rem u 2 =? 0, w').

(** The values a collection of pairs holds under key [k]. *)
Definition values_of {K V : Type} `{EqDecision K} (k : K)
    (c : beam.PCollection (K * V)) : list V :=
  (filter (fun kv => kv.1 = k) c).*2.

Module top.

(** [top.LargestPerKey(s, col, n, less)]: the engine's transform from a
    [PCollection<K,V>] to a [PCollection<K,[]V>]. It calls [less], which
    may draw from the process state. *)
Class API : Type := {
  LargestPerKey :
    forall (K V : Type) (eqK : EqDecision K),
      beam.PCollection (K * V) -> Z ->
      (V -> V -> World -> bool * World) ->
      M (beam.PCollection (K * list V))
}.
Arguments LargestPerKey {_} K V {_} _ _ _.

(** What [sampled] must be for [col] and a count [n]: one slice per key
    of [col], holding [min n (number of values of the key)] of the key's
    values. *)
Definition largest_per_key {K V : Type} `{EqDecision K}
    (col : beam.PCollection (K * V)) (n : Z)
    (sampled : beam.PCollection (K * list V)) : Prop :=
  NoDup sampled.*1 /\
  (forall k, k ∈ col.*1 -> k ∈ sampled.*1) /\
  (forall k vs, (k, vs) ∈ sampled ->
     vs ⊆+ values_of k col /\
     length vs = Nat.min (Z.to_nat n) (length (values_of k col))).

(** The transform's contract: for a positive [n] and every comparison
    function, consistent or not, it returns, and what it returns
    satisfies [largest_per_key]. *)
Definition contract `{API} : Prop :=
  forall (K V : Type) (eqK : EqDecision K)
         (col : beam.PCollection (K * V)) (n : Z)
         (less : V -> V -> World -> bool * World) (w : World),
    0 < n ->
    exists sampled w',
      LargestPerKey K V col n less w = Ok (sampled, w') /\
      largest_per_key col n sampled.

End top.

(** [flattenValuesFn]: emits [(key, v)] for each [v] of [values], in
    order. *)
Definition flattenValuesFn {T V : Type} (key : T) (values : list V)
    : list (T * V) :=
  foldl (fun emitted v => emitted ++ [(key, v)]) [] values.

(** [boundContributions]. *)
Definition boundContributions `{top.API} {K V : Type} `{EqDecision K}
    (kvCol : beam.PCollection (K * V)) (contributionLimit : int64)
    : M (beam.PCollection (K * V)) :=
  let* sampled :=
    top.LargestPerKey K V kvCol (int_of_int64 contributionLimit) randBool in
  ret (beam.ParDo (fun kvs : K * list V => flattenValuesFn kvs.1 kvs.2) sampled).

(** ** Re-keying and decoding of encoded pairs *)

Module reflect.

(** [reflect.Kind] and the two kinds the dispatchers of this file name,
    with the values the [reflect] package gives them. *)
Definition Kind : Type := Z.
Definition Int64 : Kind := 6.
Definition Float64 : Kind := 14.

End reflect.

(** [pairInt64] contains an encoded value and an int64 metric. *)
Module pairInt64.
Record t : Type := mk {
  X : list Byte.byte;
  M : int64
}.
End pairInt64.

(** [pairFloat64] contains an encoded value and a float64 metric. *)
Module pairFloat64.
Record t : Type := mk {
  X : list Byte.byte;
  M : float64
}.
End pairFloat64.

(** [rekeyInt64Fn]. *)
Definition rekeyInt64Fn (kv : kv.Pair) (m : int64)
    : list Byte.byte * pairInt64.t :=
  (kv.K kv, pairInt64.mk (kv.V kv) m).

(** [rekeyFloat64Fn]. *)
Definition rekeyFloat64Fn (kv : kv.Pair) (m : float64)
    : list Byte.byte * pairFloat64.t :=
  (kv.K kv, pairFloat64.mk (kv.V kv) m).

Module decoder.

(** [beam.NewElementDecoder]: a decoder returns the decoded element or an
    error. *)
Class API `{codec.API} : Type := {
  NewElementDecoder : codec.reflect_Type -> list Byte.byte -> result codec.Value
}.

(** [beam.ElementDecoder]. *)
Definition ElementDecoder `{codec.API} : Type :=
  list Byte.byte -> result codec.Value.

End decoder.

(** [decodePairInt64Fn] transforms a [PCollection<pairInt64<codedX,int64>>]
    into a [PCollection<X,int64>]. *)
Module decodePairInt64Fn.

Record t `{codec.API} : Type := mk {
  XType : codec.EncodedType;
  xDec : option decoder.ElementDecoder
}.

Section Methods.
Context `{decoder.API}.

Definition Setup (fn : t) : t :=
  {| XType := XType fn;
     xDec := Some (decoder.NewElementDecoder (codec.T (XType fn))) |}.

Definition ProcessElement (fn : t) (pair : pairInt64.t)
    : outcome (codec.Value * int64) :=
  match xDec fn with
  | None => Panic "invalid memory address or nil pointer dereference"
  | Some dec =>
      match dec (pairInt64.X pair) with
      | Failure err =>
          Exit "pbeam.decodePairInt64Fn.ProcessElement: couldn't decode pair"
      | Success x => Ok (x, pairInt64.M pair)
      end
  end.

End Methods.

End decodePairInt64Fn.

Definition newDecodePairInt64Fn `{codec.API} (t : codec.reflect_Type)
    : decodePairInt64Fn.t :=
  {| decodePairInt64Fn.XType := codec.mkEncodedType _ t;
     decodePairInt64Fn.xDec := None |}.

(** [decodePairFloat64Fn] transforms a
    [PCollection<pairFloat64<codedX,float64>>] into a
    [PCollection<X,float64>]. *)
Module decodePairFloat64Fn.

Record t `{codec.API} : Type := mk {
  XType : codec.EncodedType;
  xDec : option decoder.ElementDecoder
}.

Section Methods.
Context `{decoder.API}.

Definition Setup (fn : t) : t :=
  {| XType := XType fn;
     xDec := Some (decoder.NewElementDecoder (codec.T (XType fn))) |}.

Definition ProcessElement (fn : t) (pair : pairFloat64.t)
    : outcome (codec.Value * float64) :=
  match xDec fn with
  | None => Panic "invalid memory address or nil pointer dereference"
  | Some dec =>
      match dec (pairFloat64.X pair) with
      | Failure err =>
          Exit "pbeam.decodePairFloat64Fn.ProcessElement: couldn't decode pair"
      | Success x => Ok (x, pairFloat64.M pair)
      end
  end.

End Methods.

End decodePairFloat64Fn.

Definition newDecodePairFloat64Fn `{codec.API} (t : codec.reflect_Type)
    : decodePairFloat64Fn.t :=
  {| decodePairFloat64Fn.XType := codec.mkEncodedType _ t;
     decodePairFloat64Fn.xDec := None |}.

(** ** Public partitions added with an empty aggregate *)

(** [prepareAddPartitionsInt64Fn]. *)
Definition prepareAddPartitionsInt64Fn {X : Type} (partitionKey : X)
    : X * int64 :=
  (partitionKey, 0).

(** [prepareAddPartitionsFloat64Fn]. *)
Definition prepareAddPartitionsFloat64Fn {X : Type} (partitionKey : X)
    : X * float64 :=
  (partitionKey, 0%float).

(** [prepareAddPartitionsMeanInt64Fn]. *)
Definition prepareAddPartitionsMeanInt64Fn {X : Type} (partitionKey : X)
    : X * list int64 :=
  (partitionKey, []).

(** [prepareAddPartitionsMeanFloat64Fn]. *)
Definition prepareAddPartitionsMeanFloat64Fn {X : Type} (partitionKey : X)
    : X * list float64 :=
  (partitionKey, []).

(** ** Dispatch on the value kind

    Each dispatcher returns a function (or a DoFn object) for [int64] or
    for [float64] values, as the left or the right summand, and ends the
    process for every other kind. The exit messages are the formats'
    texts, without the kind. *)

Definition findRekeyFn (kind : reflect.Kind)
    : outcome ((kv.Pair -> int64 -> list Byte.byte * pairInt64.t)
               + (kv.Pair -> float64 -> list Byte.byte * pairFloat64.t)) :=
  if kind =? reflect.Int64 then Ok (inl rekeyInt64Fn)
  else if kind =? reflect.Float64 then Ok (inr rekeyFloat64Fn)
  else Exit "pbeam.findRekeyFn: kind should be int64 or float64".

Definition newDecodePairFn `{codec.API} (t : codec.reflect_Type)
    (kind : reflect.Kind)
    : outcome (decodePairInt64Fn.t + decodePairFloat64Fn.t) :=
  if kind =? reflect.Int64 then Ok (inl (newDecodePairInt64Fn t))
  else if kind =? reflect.Float64 then Ok (inr (newDecodePairFloat64Fn t))
  else Exit "pbeam.newDecodePairFn: kind should be int64 or float64".

Definition findCorrectToFn (kind : reflect.Kind)
    : outcome ((forall X : Type, X -> option int64 -> outcome (X * int64))
               + (forall X : Type, X -> option float64 -> outcome (X * float64))) :=
  if kind =? reflect.Int64 then Ok (inl (@CorrectToInt64))
  else if kind =? reflect.Float64 then Ok (inr (@CorrectToFloat64))
  else Exit "pbeam.findDropThresholdedPartitionsFn: kind should be int64 or float64".

Definition findDropThresholdedPartitionsFn (kind : reflect.Kind)
    : outcome ((forall V : Type, V -> option int64 -> list (V * int64))
               + (forall V : Type, V -> option float64 -> list (V * float64))) :=
  if kind =? reflect.Int64 then Ok (inl (@dropThresholdedPartitionsInt64Fn))
  else if kind =? reflect.Float64 then Ok (inr (@dropThresholdedPartitionsFloat64Fn))
  else Exit "pbeam.findDropThresholdedPartitionsFn: kind should be int64 or float64".

Definition findClampNegativePartitionsFn (kind : reflect.Kind)
    : outcome ((forall V : Type, V -> int64 -> V * int64)
               + (forall V : Type, V -> float64 -> V * float64)) :=
  if kind =? reflect.Int64 then Ok (inl (@clampNegativePartitionsInt64Fn))
  else if kind =? reflect.Float64 then Ok (inr (@clampNegativePartitionsFloat64Fn))
  else Exit "pbeam.findClampNegativePartitionsFn: kind should be int64 or float64".

Definition newPrepareAddPartitionsFn (vKind : reflect.Kind)
    : outcome ((forall X : Type, X -> X * int64)
               + (forall X : Type, X -> X * float64)) :=
  if vKind =? reflect.Int64 then Ok (inl (@prepareAddPartitionsInt64Fn))
  else if vKind =? reflect.Float64 then Ok (inr (@prepareAddPartitionsFloat64Fn))
  else Exit "pbeam.newPrepareAddPartitionsFn: vKind should be int64 or float64".

Definition newPrepareAddMeanPartitionsFn (vKind : reflect.Kind)
    : outcome ((forall X : Type, X -> X * list int64)
               + (forall X : Type, X -> X * list float64)) :=
  if vKind =? reflect.Int64 then Ok (inl (@prepareAddPartitionsMeanInt64Fn))
  else if vKind =? reflect.Float64 then Ok (inr (@prepareAddPartitionsMeanFloat64Fn))
  else Exit "pbeam.newPrepareAddPartitionsFn: vKind should be int64 or float64".

(** ** The combiner for a value kind *)

Module checks.

(** The two bound checks of the [checks] package, which return an error
    or nil, and the conversion [int64(x)] of a [float64]. *)
Class API : Type := {
  CheckBoundsFloat64AsInt64 : string -> float64 -> float64 -> option string;
  CheckBoundsFloat64 : string -> float64 -> float64 -> option string;
  int64_of_float64 : float64 -> int64
}.

End checks.

(** [newBoundedSumFn]. The constructor for the kind runs before the
    error of the bound check is looked at. *)
Definition newBoundedSumFn `{noise.API} `{checks.API}
    (epsilon delta : float64) (maxPartitionsContributed : int64)
    (lower upper : float64) (noiseKind : noise.Kind) (vKind : reflect.Kind)
    (partitionsSpecified : bool)
    : outcome (boundedSumInt64Fn.t + boundedSumFloat64Fn.t) :=
  let! made :=
    (if vKind =? reflect.Int64 then
       let err := checks.CheckBoundsFloat64AsInt64 "pbeam.newBoundedSumFn"
                    lower upper in
       let! bsFn := newBoundedSumInt64Fn epsilon delta maxPartitionsContributed
                      (checks.int64_of_float64 lower)
                      (checks.int64_of_float64 upper)
                      noiseKind partitionsSpecified in
       Ok (err, inl bsFn)
     else if vKind =? reflect.Float64 then
       let err := checks.CheckBoundsFloat64 "pbeam.newBoundedSumFn"
                    lower upper in
       let! bsFn := newBoundedSumFloat64Fn epsilon delta maxPartitionsContributed
                      lower upper noiseKind partitionsSpecified in
       Ok (err, inr bsFn)
     else Exit "pbeam.newBoundedSumFn: vKind should be int64 or float64") in
  match made.1 with
  | Some err => Exit err
  | None => Ok made.2
  end.

(** ** Accumulators a combiner produces

    The accumulators the engine can hold for a combiner [fn]: the ones
    [CreateAccumulator] returns, and the ones [AddInput] and
    [MergeAccumulators] return on such accumulators. *)

Inductive derivedInt64 `{dpagg.API} (fn : boundedSumInt64Fn.t)
    : boundedSumAccumInt64.t -> Prop :=
| derivedInt64_create (w w' : World) (a : boundedSumAccumInt64.t) :
    boundedSumInt64Fn.CreateAccumulator fn w = Ok (a, w') ->
    derivedInt64 fn a
| derivedInt64_add (w w' : World) (a a' : boundedSumAccumInt64.t)
    (value : int64) :
    derivedInt64 fn a ->
    boundedSumInt64Fn.AddInput fn a value w = Ok (a', w') ->
    derivedInt64 fn a'
| derivedInt64_merge (w w' : World) (a b c : boundedSumAccumInt64.t) :
    derivedInt64 fn a ->
    derivedInt64 fn b ->
    boundedSumInt64Fn.MergeAccumulators fn a b w = Ok (c, w') ->
    derivedInt64 fn c.

Inductive derivedFloat64 `{dpagg.API} (fn : boundedSumFloat64Fn.t)
    : boundedSumAccumFloat64.t -> Prop :=
| derivedFloat64_create (w w' : World) (a : boundedSumAccumFloat64.t) :
    boundedSumFloat64Fn.CreateAccumulator fn w = Ok (a, w') ->
    derivedFloat64 fn a
| derivedFloat64_add (w w' : World) (a a' : boundedSumAccumFloat64.t)
    (value : float64) :
    derivedFloat64 fn a ->
    boundedSumFloat64Fn.AddInput fn a value w = Ok (a', w') ->
    derivedFloat64 fn a'
| derivedFloat64_merge (w w' : World) (a b c : boundedSumAccumFloat64.t) :
    derivedFloat64 fn a ->
    derivedFloat64 fn b ->
    boundedSumFloat64Fn.MergeAccumulators fn a b w = Ok (c, w') ->
    derivedFloat64 fn c.

(** [n] calls of [randBool] in a row, on any arguments. *)
Fixpoint randBools {V : Type} (n : nat) (a b : V) (w : World)
    : list bool * World :=
  match n with
  | O => ([], w)
  | S n' =>
      let (r, w1) := randBool a b w in
      let (rs, w2) := randBools n' a b w1 in
      (r :: rs, w2)
  end.

(** ** Instances of the interfaces, for running the definitions

    The packages behind the interfaces above are not part of this file.
    The instances below make the definitions run on concrete inputs; the
    properties are stated for every instance. *)

Module stub.

(** A sequential [top.LargestPerKey]: per key, in order of first
    occurrence, the key's values are sorted by insertion with [less],
    largest first, and the first [n] are kept. *)
Fixpoint insert_by {V : Type} (less : V -> V -> World -> bool * World)
    (x : V) (l : list V) (w : World) : list V * World :=
  match l with
  | [] => ([x], w)
  | y :: l' =>
      let (b, w1) := less y x w in
      if b then (x :: y :: l', w1)
      else let (r, w2) := insert_by less x l' w1 in (y :: r, w2)
  end.

Fixpoint sort_by {V : Type} (less : V -> V -> World -> bool * World)
    (l : list V) (w : World) : list V * World :=
  match l with
  | [] => ([], w)
  | x :: l' =>
      let (s, w1) := sort_by less l' w in
      insert_by less x s w1
  end.

Fixpoint per_key {K V : Type} `{EqDecision K}
    (less : V -> V -> World -> bool * World) (n : nat)
    (col : list (K * V)) (keys : list K) (w : World)
    : list (K * list V) * World :=
  match keys with
  | [] => ([], w)
  | k :: keys' =>
      let (s, w1) := sort_by less (values_of k col) w in
      let (rest, w2) := per_key less n col keys' w1 in
      ((k, take n s) :: rest, w2)
  end.

Definition LargestPerKey (K V : Type) `{EqDecision K}
    (col : beam.PCollection (K * V)) (n : Z)
    (less : V -> V -> World -> bool * World)
    : M (beam.PCollection (K * list V)) :=
  fun w =>
    if n <? 1 then Panic "n must be > 0"
    else Ok (per_key less (Z.to_nat n) col (remove_dups col.*1) w).

Definition top_api : top.API := {| top.LargestPerKey := LargestPerKey |}.

(** The noise kinds, numbered from one. *)
Definition noise_api : noise.API := {|
  noise.GaussianNoise := 1;
  noise.LaplaceNoise := 2;
  noise.Noise := noise.Kind;
  noise.nilNoise := 0;
  noise.ToNoise := fun k => k
|}.

(** Primitives without noise: a bounded sum is the sum of its clamped
    inputs, a partition is selected once it has two contributions. *)
Definition clampZ (lo hi x : Z) : Z := Z.max lo (Z.min hi x).

Definition clampF (lo hi x : float64) : float64 :=
  if PrimFloat.ltb x lo then lo else if PrimFloat.ltb hi x then hi else x.

Definition dpagg_api : @dpagg.API noise_api := {|
  dpagg.BoundedSumInt64 := Z * Z * Z;
  dpagg.NewBoundedSumInt64 := fun o =>
    ret (dpagg.BoundedSumInt64Options.Lower o,
         dpagg.BoundedSumInt64Options.Upper o, 0);
  dpagg.BoundedSumInt64_Add := fun s x =>
    ret (s.1.1, s.1.2, s.2 + clampZ s.1.1 s.1.2 x);
  dpagg.BoundedSumInt64_Merge := fun s s' => ret (s.1.1, s.1.2, s.2 + s'.2);
  dpagg.BoundedSumInt64_Result := fun s => ret s.2;
  dpagg.BoundedSumFloat64 := float64 * float64 * float64;
  dpagg.NewBoundedSumFloat64 := fun o =>
    ret (dpagg.BoundedSumFloat64Options.Lower o,
         dpagg.BoundedSumFloat64Options.Upper o, 0%float);
  dpagg.BoundedSumFloat64_Add := fun s x =>
    ret (s.1.1, s.1.2, (s.2 + clampF s.1.1 s.1.2 x)%float);
  dpagg.BoundedSumFloat64_Merge := fun s s' =>
    ret (s.1.1, s.1.2, (s.2 + s'.2)%float);
  dpagg.BoundedSumFloat64_Result := fun s => ret s.2;
  dpagg.PreAggSelectPartition := Z;
  dpagg.NewPreAggSelectPartition := fun _ => ret 0;
  dpagg.PreAggSelectPartition_Add := fun c => ret (c + 1);
  dpagg.PreAggSelectPartition_Merge := fun c c' => ret (c + c');
  dpagg.PreAggSelectPartition_Result := fun c => ret (2 <=? c)
|}.

(** Partition keys that are strings, encoded as their bytes; the empty
    string has no encoding. *)
Definition codec_api : codec.API := {|
  codec.reflect_Type := unit;
  codec.FullType := unit;
  codec.FullType_Type := fun _ => tt;
  codec.Value := string;
  codec.NewElementEncoder := fun _ v =>
    match v with
    | EmptyString => Failure "empty"
    | _ => Success (String.list_byte_of_string v)
    end
|}.

(** A process state whose source delivers 0, 1, 2, ... *)
Definition world0 : World := mkWorld (fun i => Z.of_nat i) 0.

(** Combiners over these instances, bounds [0, 10], and accumulators
    with a raw sum and a number of contributions. *)
Definition fnInt64 (partitionsSpecified : bool) : @boundedSumInt64Fn.t noise_api :=
  boundedSumInt64Fn.mk noise_api 0.5%float 0.5%float 0%float 0.125%float 1 0 10 2 2
    partitionsSpecified.

Definition fnFloat64 (partitionsSpecified : bool) : @boundedSumFloat64Fn.t noise_api :=
  boundedSumFloat64Fn.mk noise_api 0.5%float 0.5%float 0%float 0.125%float 1
    0%float 10%float 2 2 partitionsSpecified.

Definition accInt64 (sum contributions : Z) (partitionsSpecified : bool)
    : @boundedSumAccumInt64.t noise_api dpagg_api :=
  boundedSumAccumInt64.mk noise_api dpagg_api (0, 10, sum) contributions
    partitionsSpecified.

Definition accFloat64 (sum : float64) (contributions : Z)
    (partitionsSpecified : bool)
    : @boundedSumAccumFloat64.t noise_api dpagg_api :=
  boundedSumAccumFloat64.mk noise_api dpagg_api (0%float, 10%float, sum)
    contributions partitionsSpecified.

(** Decoding of the string keys: the bytes of the string; no bytes decode
    to nothing. *)
Definition decoder_api : @decoder.API codec_api := {|
  decoder.NewElementDecoder := fun _ b =>
    match b with
    | [] => Failure "empty"
    | _ => Success (String.string_of_list_byte b : @codec.Value codec_api)
    end
|}.

(** Bound checks that ask for [lower < upper], and a conversion that
    truncates toward zero. *)
Definition check_bounds (name : string) (lower upper : float64)
    : option string :=
  if PrimFloat.ltb lower upper then None else Some name.

Definition truncate (x : float64) : int64 :=
  match Prim2SF x with
  | S754_zero _ => 0
  | S754_finite s m e =>
      let a := if 0 <=? e then Z.pos m * 2 ^ e else Z.pos m / 2 ^ (- e) in
      wrap 64 (if s then - a else a)
  | _ => - 2 ^ 63
  end.

Definition checks_api : checks.API := {|
  checks.CheckBoundsFloat64AsInt64 := check_bounds;
  checks.CheckBoundsFloat64 := check_bounds;
  checks.int64_of_float64 := truncate
|}.

End stub.

(** ** Computations that only flip coins

    What a transform does with [randBool] as its comparison function: a
    leaf is a result, a node is one call of [randBool] with what follows
    when the call returns [true] and when it returns [false]. *)

Module flips.

Inductive tree (A : Type) : Type :=
| Leaf (a : A)
| Flip (on_true on_false : tree A).
Arguments Leaf {A} a.
Arguments Flip {A} on_true on_false.

Fixpoint bind {A B : Type} (t : tree A) (k : A -> tree B) : tree B :=
  match t with
  | Leaf a => k a
  | Flip t1 t0 => Flip (bind t1 k) (bind t0 k)
  end.

Definition map {A B : Type} (f : A -> B) (t : tree A) : tree B :=
  bind t (fun a => Leaf (f a)).



(** The mean of [f] over the results, each call of [randBool] being a
    fair coin that does not depend on the calls before it (the words of
    the source are uniform, so half of them are even). *)
Fixpoint expect {A : Type} (f : A -> Q) (t : tree A) : Q :=
  match t with
  | Leaf a => f a
  | Flip t1 t0 => ((expect f t1 + expect f t0) / 2)%Q
  end.

(** The probability that the result satisfies [P]. *)
Definition prob {A : Type} (P : A -> bool) (t : tree A) : Q :=
  expect (fun a => if P a then 1%Q else 0%Q) t.

(** [stub.insert_by], [stub.sort_by] and [stub.per_key] with [randBool] as
    the comparison function. *)
Fixpoint insert_by {V : Type} (x : V) (l : list V) : tree (list V) :=
  match l with
  | [] => Leaf [x]
  | y :: l' => Flip (Leaf (x :: y :: l')) (map (cons y) (insert_by x l'))
  end.

Fixpoint sort_by {V : Type} (l : list V) : tree (list V) :=
  match l with
  | [] => Leaf []
  | x :: l' => bind (sort_by l') (insert_by x)
  end.

Fixpoint per_key {K V : Type} `{EqDecision K} (n : nat) (col : list (K * V))
    (keys : list K) : tree (list (K * list V)) :=
  match keys with
  | [] => Leaf []
  | k :: keys' =>
      bind (sort_by (values_of k col))
        (fun s =>
           bind (per_key n col keys')
             (fun rest => Leaf ((k, take n s) :: rest)))
  end.

(** [boundContributions] on the sequential engine. *)
Definition bounded {K V : Type} `{EqDecision K} (kvCol : beam.PCollection (K * V))
    (contributionLimit : int64) : tree (beam.PCollection (K * V)) :=
  map (beam.ParDo (fun kvs : K * list V => flattenValuesFn kvs.1 kvs.2))
    (per_key (Z.to_nat contributionLimit) kvCol (remove_dups kvCol.*1)).

End flips.

(** * Properties *)

(** Case analysis on [H : x ∈ [a; b; ...]], closing each case with [tac]. *)
Ltac elem_of_cases H tac :=
  repeat (apply elem_of_cons in H as [-> | H]; [tac |]);
  try (now apply elem_of_nil in H).

(** ** Post-processing *)

Lemma clampInt64_cases {V : Type} (v : V) (r : int64) :
  clampNegativePartitionsInt64Fn v r = (v, Z.max 0 r).
Proof.
  unfold clampNegativePartitionsInt64Fn.
  destruct (Z.ltb_spec r 0) as [Hneg | Hpos]; f_equal; lia.
Qed.

Lemma clampFloat64_not_below_zero {V : Type} (v : V) (r : float64) :
  PrimFloat.ltb (clampNegativePartitionsFloat64Fn v r).2 0 = false.
Proof.
  unfold clampNegativePartitionsFloat64Fn.
  destruct (PrimFloat.ltb r 0) eqn:Hr; simpl; [reflexivity | exact Hr].
Qed.

(** C6. The clamping step returns [(key, 0)] when [r < 0] and [(key, r)]
    otherwise, for int64 and for float64 results; its output is never
    below zero, for one record and for every record of a clamped
    stream. *)
Theorem clampNegativePartitions_spec :
  (forall (V : Type) (v : V) (r : int64),
      (r < 0 -> clampNegativePartitionsInt64Fn v r = (v, 0)) /\
      (~ r < 0 -> clampNegativePartitionsInt64Fn v r = (v, r)) /\
      0 <= (clampNegativePartitionsInt64Fn v r).2) /\
  (forall (V : Type) (v : V) (r : float64),
      (PrimFloat.ltb r 0 = true ->
         clampNegativePartitionsFloat64Fn v r = (v, 0%float)) /\
      (PrimFloat.ltb r 0 = false ->
         clampNegativePartitionsFloat64Fn v r = (v, r)) /\
      PrimFloat.ltb (clampNegativePartitionsFloat64Fn v r).2 0 = false) /\
  (forall (V : Type) (c : beam.PCollection (V * int64)),
      Forall (fun kr => 0 <= kr.2)
        (beam.ParDo1 (fun kr => clampNegativePartitionsInt64Fn kr.1 kr.2) c)) /\
  (forall (V : Type) (c : beam.PCollection (V * float64)),
      Forall (fun kr => PrimFloat.ltb kr.2 0 = false)
        (beam.ParDo1 (fun kr => clampNegativePartitionsFloat64Fn kr.1 kr.2) c)).
Proof.
  split; [| split; [| split]]; intros V.
  - intros v r. rewrite clampInt64_cases. split; [| split].
    + intros Hneg. f_equal. lia.
    + intros Hpos. f_equal. lia.
    + simpl. lia.
  - intros v r. split; [| split].
    + intros Hr. unfold clampNegativePartitionsFloat64Fn. now rewrite Hr.
    + intros Hr. unfold clampNegativePartitionsFloat64Fn. now rewrite Hr.
    + apply clampFloat64_not_below_zero.
  - intros c. unfold beam.ParDo1. apply Forall_map, Forall_forall.
    intros [v r] _. rewrite clampInt64_cases. simpl. lia.
  - intros c. unfold beam.ParDo1. apply Forall_map, Forall_forall.
    intros [v r] _. apply clampFloat64_not_below_zero.
Qed.

Lemma clampNegativePartitions_spec_witness :
  clampNegativePartitionsInt64Fn "p1"%string (-3) = ("p1"%string, 0) /\
  clampNegativePartitionsInt64Fn "p1"%string 4 = ("p1"%string, 4) /\
  clampNegativePartitionsFloat64Fn "p1"%string (-1.5)%float = ("p1"%string, 0%float) /\
  clampNegativePartitionsFloat64Fn "p1"%string 2.5%float = ("p1"%string, 2.5%float).
Proof.
  destruct clampNegativePartitions_spec as (Hint & Hfloat & _).
  split; [| split; [| split]].
  - apply (Hint string "p1"%string (-3)). lia.
  - apply (Hint string "p1"%string 4). lia.
  - apply (Hfloat string "p1"%string (-1.5)%float). reflexivity.
  - apply (Hfloat string "p1"%string 2.5%float). reflexivity.
Defined.

Lemma drop_is_omap_int64 {V : Type} (c : beam.PCollection (V * option int64)) :
  beam.ParDo (fun r => dropThresholdedPartitionsInt64Fn r.1 r.2) c = omap present c.
Proof.
  unfold beam.ParDo.
  induction c as [| [v [x |]] c IH]; simpl; [reflexivity | |].
  - f_equal. exact IH.
  - exact IH.
Qed.

Lemma drop_is_omap_float64 {V : Type} (c : beam.PCollection (V * option float64)) :
  beam.ParDo (fun r => dropThresholdedPartitionsFloat64Fn r.1 r.2) c = omap present c.
Proof.
  unfold beam.ParDo.
  induction c as [| [v [x |]] c IH]; simpl; [reflexivity | |].
  - f_equal. exact IH.
  - exact IH.
Qed.

Lemma elem_of_omap_present {V A : Type} (c : list (V * option A)) (v : V) (x : A) :
  (v, x) ∈ omap present c <-> (v, Some x) ∈ c.
Proof.
  rewrite list_elem_of_omap. split.
  - intros [[v' [x' |]] [Hin Heq]]; unfold present in Heq; simpl in Heq;
      [| discriminate].
    now inversion Heq; subst.
  - intros Hin. exists (v, Some x). split; [exact Hin | reflexivity].
Qed.

(** C7. The drop step emits, for a record with a present result, the
    record with the unwrapped value, and nothing for a record whose result
    is nil; over a stream it yields exactly the present records, in order
    and with their multiplicity, so a suppressed partition is absent from
    the output. *)
Theorem dropThresholdedPartitions_spec :
  (forall (V : Type) (v : V) (x : int64),
      dropThresholdedPartitionsInt64Fn v (Some x) = [(v, x)]) /\
  (forall (V : Type) (v : V), dropThresholdedPartitionsInt64Fn v None = []) /\
  (forall (V : Type) (v : V) (x : float64),
      dropThresholdedPartitionsFloat64Fn v (Some x) = [(v, x)]) /\
  (forall (V : Type) (v : V), dropThresholdedPartitionsFloat64Fn v None = []) /\
  (forall (V : Type) (c : beam.PCollection (V * option int64)),
      let out := beam.ParDo (fun r => dropThresholdedPartitionsInt64Fn r.1 r.2) c in
      out = omap present c /\
      (forall v x, (v, x) ∈ out <-> (v, Some x) ∈ c) /\
      (forall v, (forall x, (v, Some x) ∉ c) -> v ∉ out.*1)) /\
  (forall (V : Type) (c : beam.PCollection (V * option float64)),
      let out := beam.ParDo (fun r => dropThresholdedPartitionsFloat64Fn r.1 r.2) c in
      out = omap present c /\
      (forall v x, (v, x) ∈ out <-> (v, Some x) ∈ c) /\
      (forall v, (forall x, (v, Some x) ∉ c) -> v ∉ out.*1)).
Proof.
  split; [reflexivity |]. split; [reflexivity |].
  split; [reflexivity |]. split; [reflexivity |].
  split; intros V c out; subst out.
  - rewrite drop_is_omap_int64.
    split; [reflexivity |]. split; [apply elem_of_omap_present |].
    intros v Hnone Hin.
    apply list_elem_of_fmap in Hin as [[v' x] [-> Hin]].
    apply elem_of_omap_present in Hin. exact (Hnone x Hin).
  - rewrite drop_is_omap_float64.
    split; [reflexivity |]. split; [apply elem_of_omap_present |].
    intros v Hnone Hin.
    apply list_elem_of_fmap in Hin as [[v' x] [-> Hin]].
    apply elem_of_omap_present in Hin. exact (Hnone x Hin).
Qed.

Example drop_stream :
  beam.ParDo (fun r => dropThresholdedPartitionsInt64Fn r.1 r.2)
    [("a"%string, Some 3); ("b"%string, None); ("c"%string, Some (-1))]
  = [("a"%string, 3); ("c"%string, -1)].
Proof. reflexivity. Qed.

Lemma CorrectTo_stream_int64 {X : Type} (c : beam.PCollection (X * option int64)) :
  (Forall (fun r => r.2 <> None) c ->
     beam.ParDo1E (fun r => CorrectToInt64 r.1 r.2) c
     = Ok (beam.ParDo (fun r => dropThresholdedPartitionsInt64Fn r.1 r.2) c)) /\
  (Exists (fun r => r.2 = None) c ->
     exists msg, beam.ParDo1E (fun r => CorrectToInt64 r.1 r.2) c = Panic msg).
Proof.
  unfold beam.ParDo.
  induction c as [| [key [x |]] c [IHok IHnil]]; split; simpl.
  - reflexivity.
  - intros Hex. inversion Hex.
  - intros Hall. inversion Hall as [| ? ? _ Hrest]; subst.
    now rewrite (IHok Hrest).
  - intros Hex. inversion Hex as [? ? Hhd | ? ? Htl]; subst; [discriminate |].
    destruct (IHnil Htl) as [msg ->]. now exists msg.
  - intros Hall. inversion Hall as [| ? ? Hhd _]; subst. now destruct Hhd.
  - intros _. eexists. reflexivity.
Qed.

Lemma CorrectTo_stream_float64 {X : Type} (c : beam.PCollection (X * option float64)) :
  (Forall (fun r => r.2 <> None) c ->
     beam.ParDo1E (fun r => CorrectToFloat64 r.1 r.2) c
     = Ok (beam.ParDo (fun r => dropThresholdedPartitionsFloat64Fn r.1 r.2) c)) /\
  (Exists (fun r => r.2 = None) c ->
     exists msg, beam.ParDo1E (fun r => CorrectToFloat64 r.1 r.2) c = Panic msg).
Proof.
  unfold beam.ParDo.
  induction c as [| [key [x |]] c [IHok IHnil]]; split; simpl.
  - reflexivity.
  - intros Hex. inversion Hex.
  - intros Hall. inversion Hall as [| ? ? _ Hrest]; subst.
    now rewrite (IHok Hrest).
  - intros Hex. inversion Hex as [? ? Hhd | ? ? Htl]; subst; [discriminate |].
    destruct (IHnil Htl) as [msg ->]. now exists msg.
  - intros Hall. inversion Hall as [| ? ? Hhd _]; subst. now destruct Hhd.
  - intros _. eexists. reflexivity.
Qed.

(** C10. [CorrectToInt64] and [CorrectToFloat64] read through their
    pointer without testing it: on a non-nil pointer they return the key
    with the pointed value, on nil they panic. Over a stream the unwrap
    step returns exactly when every record's pointer is non-nil, and then
    yields what the drop step yields; one nil record makes it panic. *)
Theorem CorrectTo_requires_non_nil :
  (forall (X : Type) (key : X) (x : int64),
      CorrectToInt64 key (Some x) = Ok (key, x)) /\
  (forall (X : Type) (key : X),
      exists msg, CorrectToInt64 key None = Panic msg) /\
  (forall (X : Type) (key : X) (x : float64),
      CorrectToFloat64 key (Some x) = Ok (key, x)) /\
  (forall (X : Type) (key : X),
      exists msg, CorrectToFloat64 key None = Panic msg) /\
  (forall (X : Type) (c : beam.PCollection (X * option int64)),
      (Forall (fun r => r.2 <> None) c ->
         beam.ParDo1E (fun r => CorrectToInt64 r.1 r.2) c
         = Ok (beam.ParDo (fun r => dropThresholdedPartitionsInt64Fn r.1 r.2) c)) /\
      (Exists (fun r => r.2 = None) c ->
         exists msg, beam.ParDo1E (fun r => CorrectToInt64 r.1 r.2) c = Panic msg)) /\
  (forall (X : Type) (c : beam.PCollection (X * option float64)),
      (Forall (fun r => r.2 <> None) c ->
         beam.ParDo1E (fun r => CorrectToFloat64 r.1 r.2) c
         = Ok (beam.ParDo (fun r => dropThresholdedPartitionsFloat64Fn r.1 r.2) c)) /\
      (Exists (fun r => r.2 = None) c ->
         exists msg, beam.ParDo1E (fun r => CorrectToFloat64 r.1 r.2) c = Panic msg)).
Proof.
  split; [reflexivity |].
  split; [intros X key; eexists; reflexivity |].
  split; [reflexivity |].
  split; [intros X key; eexists; reflexivity |].
  split; intros X c.
  - apply CorrectTo_stream_int64.
  - apply CorrectTo_stream_float64.
Qed.

Lemma CorrectTo_requires_non_nil_witness :
  beam.ParDo1E (fun r => CorrectToInt64 r.1 r.2)
    [("a"%string, Some 3); ("b"%string, Some (-1))]
  = Ok [("a"%string, 3); ("b"%string, -1)] /\
  exists msg,
    beam.ParDo1E (fun r => CorrectToInt64 r.1 r.2)
      [("a"%string, Some 3); ("b"%string, None)]
    = Panic msg.
Proof.
  destruct CorrectTo_requires_non_nil as (_ & _ & _ & _ & Hint & _).
  split.
  - apply (Hint string [("a"%string, Some 3); ("b"%string, Some (-1))]).
    repeat constructor; discriminate.
  - apply (Hint string [("a"%string, Some 3); ("b"%string, None)]).
    right. left. reflexivity.
Defined.

(** ** The combiners *)

Section Combiners.
Context `{D : dpagg.API}.

Lemma ExtractOutput_int64_specified (fn : boundedSumInt64Fn.t)
    (a : boundedSumAccumInt64.t) (w w1 : World) (result : int64) :
  dpagg.BoundedSumInt64_Result (boundedSumAccumInt64.BS a) w = Ok (result, w1) ->
  boundedSumAccumInt64.PartitionsSpecified a = true ->
  boundedSumInt64Fn.ExtractOutput fn a w = Ok (Some result, w1).
Proof.
  intros Hsum Hflag. unfold boundedSumInt64Fn.ExtractOutput, bind.
  rewrite Hsum, Hflag. reflexivity.
Qed.

Lemma ExtractOutput_int64_selected (fn : boundedSumInt64Fn.t)
    (a : boundedSumAccumInt64.t) (w w1 w2 : World) (result : int64)
    (keep : bool) :
  dpagg.BoundedSumInt64_Result (boundedSumAccumInt64.BS a) w = Ok (result, w1) ->
  boundedSumAccumInt64.PartitionsSpecified a = false ->
  dpagg.PreAggSelectPartition_Result (boundedSumAccumInt64.SP a) w1
    = Ok (keep, w2) ->
  boundedSumInt64Fn.ExtractOutput fn a w
    = Ok (if keep then Some result else None, w2).
Proof.
  intros Hsum Hflag Hsel. unfold boundedSumInt64Fn.ExtractOutput, bind.
  rewrite Hsum, Hflag. simpl. rewrite Hsel. now destruct keep.
Qed.

Lemma ExtractOutput_float64_specified (fn : boundedSumFloat64Fn.t)
    (a : boundedSumAccumFloat64.t) (w w1 : World) (result : float64) :
  dpagg.BoundedSumFloat64_Result (boundedSumAccumFloat64.BS a) w
    = Ok (result, w1) ->
  boundedSumAccumFloat64.PartitionsSpecified a = true ->
  boundedSumFloat64Fn.ExtractOutput fn a w = Ok (Some result, w1).
Proof.
  intros Hsum Hflag. unfold boundedSumFloat64Fn.ExtractOutput, bind.
  rewrite Hsum, Hflag. reflexivity.
Qed.

Lemma ExtractOutput_float64_selected (fn : boundedSumFloat64Fn.t)
    (a : boundedSumAccumFloat64.t) (w w1 w2 : World) (result : float64)
    (keep : bool) :
  dpagg.BoundedSumFloat64_Result (boundedSumAccumFloat64.BS a) w
    = Ok (result, w1) ->
  boundedSumAccumFloat64.PartitionsSpecified a = false ->
  dpagg.PreAggSelectPartition_Result (boundedSumAccumFloat64.SP a) w1
    = Ok (keep, w2) ->
  boundedSumFloat64Fn.ExtractOutput fn a w
    = Ok (if keep then Some result else None, w2).
Proof.
  intros Hsum Hflag Hsel. unfold boundedSumFloat64Fn.ExtractOutput, bind.
  rewrite Hsum, Hflag. simpl. rewrite Hsel. now destruct keep.
Qed.

(** C1. [ExtractOutput], for the int64 and for the float64 combiner:
    with [result] the noised sum that the sum sub-state returns, the
    output is the present value [result] when the accumulator's
    [PartitionsSpecified] flag is true (the selection sub-state is then
    not consulted) or when the selection sub-state's [Result()] is true,
    and nil otherwise. *)
Theorem ExtractOutput_spec :
  (forall (fn : boundedSumInt64Fn.t) (a : boundedSumAccumInt64.t)
          (w w1 : World) (result : int64),
      dpagg.BoundedSumInt64_Result (boundedSumAccumInt64.BS a) w
        = Ok (result, w1) ->
      (boundedSumAccumInt64.PartitionsSpecified a = true ->
         boundedSumInt64Fn.ExtractOutput fn a w = Ok (Some result, w1)) /\
      (forall (keep : bool) (w2 : World),
         dpagg.PreAggSelectPartition_Result (boundedSumAccumInt64.SP a) w1
           = Ok (keep, w2) ->
         exists w',
           boundedSumInt64Fn.ExtractOutput fn a w
           = Ok (if boundedSumAccumInt64.PartitionsSpecified a || keep
                 then Some result else None, w'))) /\
  (forall (fn : boundedSumFloat64Fn.t) (a : boundedSumAccumFloat64.t)
          (w w1 : World) (result : float64),
      dpagg.BoundedSumFloat64_Result (boundedSumAccumFloat64.BS a) w
        = Ok (result, w1) ->
      (boundedSumAccumFloat64.PartitionsSpecified a = true ->
         boundedSumFloat64Fn.ExtractOutput fn a w = Ok (Some result, w1)) /\
      (forall (keep : bool) (w2 : World),
         dpagg.PreAggSelectPartition_Result (boundedSumAccumFloat64.SP a) w1
           = Ok (keep, w2) ->
         exists w',
           boundedSumFloat64Fn.ExtractOutput fn a w
           = Ok (if boundedSumAccumFloat64.PartitionsSpecified a || keep
                 then Some result else None, w'))).
Proof.
  split; intros fn a w w1 result Hsum; split.
  - now apply ExtractOutput_int64_specified.
  - intros keep w2 Hsel.
    destruct (boundedSumAccumInt64.PartitionsSpecified a) eqn:Hflag.
    + exists w1. now apply ExtractOutput_int64_specified.
    + exists w2. simpl.
      exact (ExtractOutput_int64_selected fn a w w1 w2 result keep Hsum Hflag Hsel).
  - now apply ExtractOutput_float64_specified.
  - intros keep w2 Hsel.
    destruct (boundedSumAccumFloat64.PartitionsSpecified a) eqn:Hflag.
    + exists w1. now apply ExtractOutput_float64_specified.
    + exists w2. simpl.
      exact (ExtractOutput_float64_selected fn a w w1 w2 result keep Hsum Hflag Hsel).
Qed.

Lemma MergeAccumulators_int64_result (fn : boundedSumInt64Fn.t)
    (a b : boundedSumAccumInt64.t) (w w1 w2 : World)
    (bs : dpagg.BoundedSumInt64) (sp : dpagg.PreAggSelectPartition) :
  dpagg.BoundedSumInt64_Merge
    (boundedSumAccumInt64.BS a) (boundedSumAccumInt64.BS b) w = Ok (bs, w1) ->
  dpagg.PreAggSelectPartition_Merge
    (boundedSumAccumInt64.SP a) (boundedSumAccumInt64.SP b) w1 = Ok (sp, w2) ->
  boundedSumInt64Fn.MergeAccumulators fn a b w
    = Ok (boundedSumAccumInt64.mk _ _ bs sp
            (boundedSumAccumInt64.PartitionsSpecified a), w2).
Proof.
  intros Hbs Hsp. unfold boundedSumInt64Fn.MergeAccumulators, bind.
  now rewrite Hbs, Hsp.
Qed.

Lemma MergeAccumulators_float64_result (fn : boundedSumFloat64Fn.t)
    (a b : boundedSumAccumFloat64.t) (w w1 w2 : World)
    (bs : dpagg.BoundedSumFloat64) (sp : dpagg.PreAggSelectPartition) :
  dpagg.BoundedSumFloat64_Merge
    (boundedSumAccumFloat64.BS a) (boundedSumAccumFloat64.BS b) w
    = Ok (bs, w1) ->
  dpagg.PreAggSelectPartition_Merge
    (boundedSumAccumFloat64.SP a) (boundedSumAccumFloat64.SP b) w1
    = Ok (sp, w2) ->
  boundedSumFloat64Fn.MergeAccumulators fn a b w
    = Ok (boundedSumAccumFloat64.mk _ _ bs sp
            (boundedSumAccumFloat64.PartitionsSpecified a), w2).
Proof.
  intros Hbs Hsp. unfold boundedSumFloat64Fn.MergeAccumulators, bind.
  now rewrite Hbs, Hsp.
Qed.

(** C3, as the code has it. [MergeAccumulators] does not compare the two
    [PartitionsSpecified] flags: its outcome does not depend on the flag
    of its second argument, and whenever the two sub-state merges return,
    it returns the accumulator made of the merged sub-states and the flag
    of its first argument. *)
Theorem MergeAccumulators_keeps_first_flag :
  (forall (fn : boundedSumInt64Fn.t) (a b : boundedSumAccumInt64.t)
          (flag : bool) (w : World),
      boundedSumInt64Fn.MergeAccumulators fn a b w
      = boundedSumInt64Fn.MergeAccumulators fn a
          (boundedSumAccumInt64.mk _ _ (boundedSumAccumInt64.BS b)
             (boundedSumAccumInt64.SP b) flag) w) /\
  (forall (fn : boundedSumFloat64Fn.t) (a b : boundedSumAccumFloat64.t)
          (flag : bool) (w : World),
      boundedSumFloat64Fn.MergeAccumulators fn a b w
      = boundedSumFloat64Fn.MergeAccumulators fn a
          (boundedSumAccumFloat64.mk _ _ (boundedSumAccumFloat64.BS b)
             (boundedSumAccumFloat64.SP b) flag) w) /\
  (forall (fn : boundedSumInt64Fn.t) (a b : boundedSumAccumInt64.t)
          (w w1 w2 : World) (bs : dpagg.BoundedSumInt64)
          (sp : dpagg.PreAggSelectPartition),
      dpagg.BoundedSumInt64_Merge
        (boundedSumAccumInt64.BS a) (boundedSumAccumInt64.BS b) w
        = Ok (bs, w1) ->
      dpagg.PreAggSelectPartition_Merge
        (boundedSumAccumInt64.SP a) (boundedSumAccumInt64.SP b) w1
        = Ok (sp, w2) ->
      boundedSumInt64Fn.MergeAccumulators fn a b w
        = Ok (boundedSumAccumInt64.mk _ _ bs sp
                (boundedSumAccumInt64.PartitionsSpecified a), w2)) /\
  (forall (fn : boundedSumFloat64Fn.t) (a b : boundedSumAccumFloat64.t)
          (w w1 w2 : World) (bs : dpagg.BoundedSumFloat64)
          (sp : dpagg.PreAggSelectPartition),
      dpagg.BoundedSumFloat64_Merge
        (boundedSumAccumFloat64.BS a) (boundedSumAccumFloat64.BS b) w
        = Ok (bs, w1) ->
      dpagg.PreAggSelectPartition_Merge
        (boundedSumAccumFloat64.SP a) (boundedSumAccumFloat64.SP b) w1
        = Ok (sp, w2) ->
      boundedSumFloat64Fn.MergeAccumulators fn a b w
        = Ok (boundedSumAccumFloat64.mk _ _ bs sp
                (boundedSumAccumFloat64.PartitionsSpecified a), w2)).
Proof.
  split; [reflexivity |]. split; [reflexivity |].
  split; intros fn a b w w1 w2 bs sp Hbs Hsp.
  - exact (MergeAccumulators_int64_result fn a b w w1 w2 bs sp Hbs Hsp).
  - exact (MergeAccumulators_float64_result fn a b w w1 w2 bs sp Hbs Hsp).
Qed.

End Combiners.

Example ExtractOutput_runs :
  boundedSumInt64Fn.ExtractOutput (stub.fnInt64 true) (stub.accInt64 12 1 true)
    stub.world0 = Ok (Some 12, stub.world0) /\
  boundedSumInt64Fn.ExtractOutput (stub.fnInt64 false) (stub.accInt64 12 1 false)
    stub.world0 = Ok (None, stub.world0) /\
  boundedSumInt64Fn.ExtractOutput (stub.fnInt64 false) (stub.accInt64 12 3 false)
    stub.world0 = Ok (Some 12, stub.world0).
Proof. repeat split. Qed.

Lemma ExtractOutput_spec_witness :
  boundedSumInt64Fn.ExtractOutput (stub.fnInt64 true) (stub.accInt64 12 1 true)
    stub.world0 = Ok (Some 12, stub.world0) /\
  (exists w',
     boundedSumInt64Fn.ExtractOutput (stub.fnInt64 false)
       (stub.accInt64 12 1 false) stub.world0 = Ok (None, w')) /\
  (exists w',
     boundedSumFloat64Fn.ExtractOutput (stub.fnFloat64 false)
       (stub.accFloat64 7.5%float 2 false) stub.world0 = Ok (Some 7.5%float, w')).
Proof.
  destruct (@ExtractOutput_spec stub.noise_api stub.dpagg_api) as [Hint Hfloat].
  split; [| split].
  - apply (Hint (stub.fnInt64 true) (stub.accInt64 12 1 true)
             stub.world0 stub.world0 12); reflexivity.
  - apply (proj2 (Hint (stub.fnInt64 false) (stub.accInt64 12 1 false)
                    stub.world0 stub.world0 12 eq_refl) false stub.world0).
    reflexivity.
  - apply (proj2 (Hfloat (stub.fnFloat64 false) (stub.accFloat64 7.5%float 2 false)
                    stub.world0 stub.world0 7.5%float eq_refl) true stub.world0).
    reflexivity.
Defined.

Example MergeAccumulators_runs :
  boundedSumInt64Fn.MergeAccumulators (stub.fnInt64 true)
    (stub.accInt64 12 1 true) (stub.accInt64 5 2 false) stub.world0
  = Ok (stub.accInt64 17 3 true, stub.world0) /\
  boundedSumInt64Fn.MergeAccumulators (stub.fnInt64 true)
    (stub.accInt64 5 2 false) (stub.accInt64 12 1 true) stub.world0
  = Ok (stub.accInt64 17 3 false, stub.world0).
Proof. split; reflexivity. Qed.

(** C3 as stated fails: two accumulators whose flags disagree are merged
    without an error. *)
Lemma MergeAccumulators_mismatch_counterexample :
  ~ (forall (N : noise.API) (D : dpagg.API) (fn : boundedSumInt64Fn.t)
            (a b : boundedSumAccumInt64.t) (w : World),
        boundedSumAccumInt64.PartitionsSpecified a
          <> boundedSumAccumInt64.PartitionsSpecified b ->
        is_Ok (boundedSumInt64Fn.MergeAccumulators fn a b w) = false).
Proof.
  intros Hclaim.
  specialize (Hclaim stub.noise_api stub.dpagg_api (stub.fnInt64 true)
                (stub.accInt64 12 1 true) (stub.accInt64 5 2 false) stub.world0).
  simpl in Hclaim. discriminate Hclaim. discriminate.
Qed.

Lemma MergeAccumulators_keeps_first_flag_witness :
  boundedSumInt64Fn.MergeAccumulators (stub.fnInt64 true)
    (stub.accInt64 12 1 true) (stub.accInt64 5 2 false) stub.world0
  = Ok (stub.accInt64 17 3 true, stub.world0) /\
  boundedSumFloat64Fn.MergeAccumulators (stub.fnFloat64 false)
    (stub.accFloat64 1.5%float 1 false) (stub.accFloat64 2%float 4 true) stub.world0
  = Ok (stub.accFloat64 3.5%float 5 false, stub.world0).
Proof.
  destruct (@MergeAccumulators_keeps_first_flag stub.noise_api stub.dpagg_api)
    as (_ & _ & Hint & Hfloat).
  split.
  - apply (Hint (stub.fnInt64 true) (stub.accInt64 12 1 true)
             (stub.accInt64 5 2 false) stub.world0 stub.world0 stub.world0
             (0, 10, 17) 3); reflexivity.
  - apply (Hfloat (stub.fnFloat64 false) (stub.accFloat64 1.5%float 1 false)
             (stub.accFloat64 2%float 4 true) stub.world0 stub.world0 stub.world0
             (0%float, 10%float, 3.5%float) 5); reflexivity.
Defined.

(** C2. The constructors split the budget: [EpsilonNoise] and
    [EpsilonPartitionSelection] are both [epsilon / 2]; for Gaussian noise
    [DeltaNoise] and [DeltaPartitionSelection] are both [delta / 2]; for
    Laplace noise [DeltaNoise] is [0] and [DeltaPartitionSelection] is
    [delta]; for any other kind the constructor ends the process instead
    of returning a combiner. *)
Theorem newBoundedSumFn_budget_split `{N : noise.API} :
  noise.GaussianNoise <> noise.LaplaceNoise ->
  forall (epsilon delta : float64) (maxPartitionsContributed : int64)
         (partitionsSpecified : bool) (noiseKind : noise.Kind),
    (forall lower upper : int64,
        let made := newBoundedSumInt64Fn epsilon delta maxPartitionsContributed
                      lower upper noiseKind partitionsSpecified in
        (noiseKind = noise.GaussianNoise ->
           exists fn, made = Ok fn /\
             boundedSumInt64Fn.EpsilonNoise fn = (epsilon / 2)%float /\
             boundedSumInt64Fn.EpsilonPartitionSelection fn = (epsilon / 2)%float /\
             boundedSumInt64Fn.DeltaNoise fn = (delta / 2)%float /\
             boundedSumInt64Fn.DeltaPartitionSelection fn = (delta / 2)%float) /\
        (noiseKind = noise.LaplaceNoise ->
           exists fn, made = Ok fn /\
             boundedSumInt64Fn.EpsilonNoise fn = (epsilon / 2)%float /\
             boundedSumInt64Fn.EpsilonPartitionSelection fn = (epsilon / 2)%float /\
             boundedSumInt64Fn.DeltaNoise fn = 0%float /\
             boundedSumInt64Fn.DeltaPartitionSelection fn = delta) /\
        (noiseKind <> noise.GaussianNoise -> noiseKind <> noise.LaplaceNoise ->
           exists msg, made = Exit msg)) /\
    (forall lower upper : float64,
        let made := newBoundedSumFloat64Fn epsilon delta maxPartitionsContributed
                      lower upper noiseKind partitionsSpecified in
        (noiseKind = noise.GaussianNoise ->
           exists fn, made = Ok fn /\
             boundedSumFloat64Fn.EpsilonNoise fn = (epsilon / 2)%float /\
             boundedSumFloat64Fn.EpsilonPartitionSelection fn = (epsilon / 2)%float /\
             boundedSumFloat64Fn.DeltaNoise fn = (delta / 2)%float /\
             boundedSumFloat64Fn.DeltaPartitionSelection fn = (delta / 2)%float) /\
        (noiseKind = noise.LaplaceNoise ->
           exists fn, made = Ok fn /\
             boundedSumFloat64Fn.EpsilonNoise fn = (epsilon / 2)%float /\
             boundedSumFloat64Fn.EpsilonPartitionSelection fn = (epsilon / 2)%float /\
             boundedSumFloat64Fn.DeltaNoise fn = 0%float /\
             boundedSumFloat64Fn.DeltaPartitionSelection fn = delta) /\
        (noiseKind <> noise.GaussianNoise -> noiseKind <> noise.LaplaceNoise ->
           exists msg, made = Exit msg)).
Proof.
  intros Hdistinct epsilon delta mpc ps kind.
  split; intros lower upper made; subst made;
    unfold newBoundedSumInt64Fn, newBoundedSumFloat64Fn.
  - split; [| split].
    + intros ->. rewrite Z.eqb_refl. eexists. repeat split.
    + intros ->.
      destruct (Z.eqb_spec noise.LaplaceNoise noise.GaussianNoise) as [Heq | _];
        [now contradict Hdistinct |].
      rewrite Z.eqb_refl. eexists. repeat split.
    + intros HnotG HnotL.
      destruct (Z.eqb_spec kind noise.GaussianNoise) as [Heq | _]; [easy |].
      destruct (Z.eqb_spec kind noise.LaplaceNoise) as [Heq | _]; [easy |].
      eexists. reflexivity.
  - split; [| split].
    + intros ->. rewrite Z.eqb_refl. eexists. repeat split.
    + intros ->.
      destruct (Z.eqb_spec noise.LaplaceNoise noise.GaussianNoise) as [Heq | _];
        [now contradict Hdistinct |].
      rewrite Z.eqb_refl. eexists. repeat split.
    + intros HnotG HnotL.
      destruct (Z.eqb_spec kind noise.GaussianNoise) as [Heq | _]; [easy |].
      destruct (Z.eqb_spec kind noise.LaplaceNoise) as [Heq | _]; [easy |].
      eexists. reflexivity.
Qed.

Lemma newBoundedSumFn_budget_split_witness :
  (exists fn,
     @newBoundedSumInt64Fn stub.noise_api 1%float 0.5%float 3 0 10 2 false = Ok fn /\
     boundedSumInt64Fn.EpsilonNoise fn = 0.5%float /\
     boundedSumInt64Fn.EpsilonPartitionSelection fn = 0.5%float /\
     boundedSumInt64Fn.DeltaNoise fn = 0%float /\
     boundedSumInt64Fn.DeltaPartitionSelection fn = 0.5%float) /\
  (exists msg,
     @newBoundedSumFloat64Fn stub.noise_api 1%float 0.5%float 3 0%float 10%float 7 false = Exit msg).
Proof.
  assert (Hdistinct : @noise.GaussianNoise stub.noise_api
                      <> @noise.LaplaceNoise stub.noise_api)
    by (simpl; lia).
  split.
  - apply (proj1 (@newBoundedSumFn_budget_split stub.noise_api Hdistinct
                    1%float 0.5%float 3 false 2) 0 10).
    reflexivity.
  - apply (proj2 (@newBoundedSumFn_budget_split stub.noise_api Hdistinct
                    1%float 0.5%float 3 false 7) 0%float 10%float);
      simpl; lia.
Defined.

(** ** The partition-spec filter *)

Lemma string_of_bytes_inj (b b' : list Byte.byte) :
  string_of_bytes b = string_of_bytes b' -> b = b'.
Proof.
  unfold string_of_bytes. intros Heq.
  rewrite <- (String.list_byte_of_string_of_list_byte b),
          <- (String.list_byte_of_string_of_list_byte b').
  now rewrite Heq.
Qed.

Lemma map_index_insert_true (m : gmap Partition bool) (k k' : Partition) :
  map_index (<[ k := true ]> m) k' = true <-> k' = k \/ map_index m k' = true.
Proof.
  unfold map_index. destruct (decide (k = k')) as [-> | Hne].
  - rewrite lookup_insert_eq. simpl. tauto.
  - rewrite lookup_insert_ne by exact Hne. split; [tauto |].
    intros [Heq | Hin]; [congruence | exact Hin].
Qed.

Section PartitionFilter.
Context `{C : codec.API}.

(** The build phase: after [add_all] a key reads [true] exactly when it
    did before or is the encoding of an added partition key. *)
Lemma add_all_index (fn0 : partitionsHashMapFn.t)
    (c : beam.PCollection codec.Value) :
  forall (m m' : mapAccum.t),
    combine.add_all (partitionsHashMapFn.Setup fn0) m c = Ok m' ->
    forall k : Partition,
      map_index (mapAccum.PartitionMap m') k = true <->
      map_index (mapAccum.PartitionMap m) k = true \/
      exists x b, x ∈ c /\
        codec.NewElementEncoder
          (codec.T (partitionsHashMapFn.PartitionType fn0)) x = Success b /\
        k = {| PartitionKey := string_of_bytes b |}.
Proof.
  induction c as [| x c IH]; intros m m' Hrun k; simpl in Hrun.
  - inversion Hrun; subst. split; [tauto |].
    intros [Hin | (x & b & Hx & _)]; [exact Hin | inversion Hx].
  - unfold partitionsHashMapFn.AddInput in Hrun. simpl in Hrun.
    destruct (codec.NewElementEncoder _ x) as [b | err] eqn:Henc;
      simpl in Hrun; [| discriminate].
    rewrite (IH _ _ Hrun k). simpl. rewrite map_index_insert_true.
    split.
    + intros [[-> | Hin] | (y & b' & Hy & Hency & ->)].
      * right. exists x, b. split; [left | split; [exact Henc | reflexivity]].
      * now left.
      * right. exists y, b'. split; [now right | split; [exact Hency | reflexivity]].
    + intros [Hin | (y & b' & Hy & Hency & ->)].
      * left. now right.
      * apply elem_of_cons in Hy as [-> | Hy].
        -- left. left. rewrite Hency in Henc. now inversion Henc.
        -- right. exists y, b'. split; [exact Hy | split; [exact Hency | reflexivity]].
Qed.

(** Merging two build-phase accumulators: a key reads [true] afterwards
    exactly when the first map has the key or the second reads [true]
    under it. *)
Lemma MergeAccumulators_index (fn : partitionsHashMapFn.t) (a b : mapAccum.t)
    (k : Partition) :
  map_index
    (mapAccum.PartitionMap (partitionsHashMapFn.MergeAccumulators fn a b)) k
  = true <->
  is_Some (mapAccum.PartitionMap a !! k) \/
  map_index (mapAccum.PartitionMap b) k = true.
Proof.
  unfold partitionsHashMapFn.MergeAccumulators. simpl.
  apply (map_fold_weak_ind
           (fun (r : gmap Partition bool) (m : gmap Partition bool) =>
              map_index r k = true <->
              is_Some (m !! k) \/ map_index (mapAccum.PartitionMap b) k = true)).
  - rewrite lookup_empty. split; [now right |].
    intros [Hsome | Hin]; [now apply is_Some_None in Hsome | exact Hin].
  - intros i x m r Hfresh IH. rewrite map_index_insert_true, IH.
    destruct (decide (i = k)) as [-> | Hne].
    + rewrite lookup_insert_eq. split; [intros _; left; eauto | now left].
    + rewrite lookup_insert_ne by exact Hne. split.
      * intros [Heq | Hrest]; [congruence | exact Hrest].
      * intros Hrest. now right.
Qed.

Lemma Combine_in_partitions (fn0 : partitionsHashMapFn.t)
    (c : beam.PCollection codec.Value)
    (input : beam.PCollection (gmap Partition bool)) :
  combine.Combine fn0 c = Ok input ->
  forall b : list Byte.byte,
    in_partitions input b = true <->
    exists x, x ∈ c /\
      codec.NewElementEncoder
        (codec.T (partitionsHashMapFn.PartitionType fn0)) x = Success b.
Proof.
  unfold combine.Combine, in_partitions. destruct c as [| x0 c].
  - intros Hrun b. inversion Hrun; subst. simpl. split; [discriminate |].
    intros (x & Hx & _). inversion Hx.
  - destruct (combine.add_all _ _ (x0 :: c)) as [m | |] eqn:Hadd;
      simpl; intros Hrun b; inversion Hrun; subst; clear Hrun.
    simpl. unfold partitionsHashMapFn.ExtractOutput.
    rewrite (add_all_index fn0 (x0 :: c) _ _ Hadd). simpl. split.
    + intros [Hin | (x & b' & Hx & Henc & Heq)]; [discriminate |].
      inversion Heq as [Hb]. apply string_of_bytes_inj in Hb. subst b'.
      now exists x.
    + intros (x & Hx & Henc). right. now exists x, b.
Qed.

Lemma prune_stream {X : Type} (c : beam.PCollection (X * kv.Pair))
    (input : beam.PCollection (gmap Partition bool)) :
  beam.ParDo (fun r => prunePartitionsFn r.1 r.2 input) c
  = List.filter (fun r => in_partitions input (kv.K r.2)) c.
Proof.
  unfold beam.ParDo. induction c as [| [id pair] c IH]; simpl; [reflexivity |].
  unfold prunePartitionsFn at 1. fold (in_partitions input (kv.K pair)).
  destruct (in_partitions input (kv.K pair)); simpl; now rewrite IH.
Qed.

Lemma prune_for_count_element {X : Type} (fn : prunePartitionsFnForCount.t)
    (id : X) (partitionKey : codec.Value)
    (input : beam.PCollection (gmap Partition bool)) (b : list Byte.byte) :
  codec.NewElementEncoder
    (codec.T (prunePartitionsFnForCount.PartitionType fn)) partitionKey
    = Success b ->
  prunePartitionsFnForCount.ProcessElement
    (prunePartitionsFnForCount.Setup fn) id partitionKey input
  = Ok (if in_partitions input b then [(id, partitionKey)] else []).
Proof.
  intros Henc. unfold prunePartitionsFnForCount.ProcessElement. simpl.
  rewrite Henc. fold (in_partitions input b).
  now destruct (in_partitions input b).
Qed.

Lemma prune_for_count_stream {X : Type} (fn : prunePartitionsFnForCount.t)
    (c : beam.PCollection (X * codec.Value))
    (input : beam.PCollection (gmap Partition bool))
    (bytes : codec.Value -> list Byte.byte) :
  (forall r, r ∈ c ->
     codec.NewElementEncoder
       (codec.T (prunePartitionsFnForCount.PartitionType fn)) r.2
     = Success (bytes r.2)) ->
  beam.ParDoE
    (fun r => prunePartitionsFnForCount.ProcessElement
                (prunePartitionsFnForCount.Setup fn) r.1 r.2 input) c
  = Ok (List.filter (fun r => in_partitions input (bytes r.2)) c).
Proof.
  induction c as [| [id pk] c IH]; intros Henc; simpl; [reflexivity |].
  rewrite (prune_for_count_element fn id pk input (bytes pk))
    by (apply (Henc (id, pk)); left).
  simpl. rewrite IH by (intros r Hr; apply Henc; now right). simpl.
  now destruct (in_partitions input (bytes pk)).
Qed.

Lemma add_all_returns (fn0 : partitionsHashMapFn.t)
    (c : beam.PCollection codec.Value) :
  (forall x, x ∈ c ->
     exists b,
       codec.NewElementEncoder
         (codec.T (partitionsHashMapFn.PartitionType fn0)) x = Success b) ->
  forall m : mapAccum.t,
    exists m', combine.add_all (partitionsHashMapFn.Setup fn0) m c = Ok m'.
Proof.
  induction c as [| x c IH]; intros Henc m; simpl.
  - now exists m.
  - destruct (Henc x) as [b Hb]; [left |].
    unfold partitionsHashMapFn.AddInput. simpl. rewrite Hb. simpl.
    apply IH. intros y Hy. apply Henc. now right.
Qed.

Lemma Combine_returns (fn0 : partitionsHashMapFn.t)
    (c : beam.PCollection codec.Value) :
  (forall x, x ∈ c ->
     exists b,
       codec.NewElementEncoder
         (codec.T (partitionsHashMapFn.PartitionType fn0)) x = Success b) ->
  exists input, combine.Combine fn0 c = Ok input.
Proof.
  intros Henc. unfold combine.Combine. destruct c as [| x0 c].
  - now exists [].
  - destruct (add_all_returns fn0 (x0 :: c) Henc
                (partitionsHashMapFn.CreateAccumulator
                   (partitionsHashMapFn.Setup fn0))) as [m' Hm'].
    rewrite Hm'. simpl. eexists. reflexivity.
Qed.

End PartitionFilter.

(** C5. The filter for sum and mean emits a record [(id, pair)] exactly
    when the already encoded key [pair.K] is in the broadcast partition
    set, and emits nothing else; the filter for count and distinct_id
    encodes the partition key first and emits [(id, partitionKey)] exactly
    when the encoded form is in the set (a key that cannot be encoded ends
    the process). Over a stream each filter yields the records whose key
    is in the set, each once per occurrence, and no other record. *)
Theorem prunePartitions_spec `{C : codec.API} :
  (forall (X : Type) (id : X) (pair : kv.Pair)
          (input : beam.PCollection (gmap Partition bool)),
      prunePartitionsFn id pair input
      = if in_partitions input (kv.K pair) then [(id, pair)] else []) /\
  (forall (X : Type) (c : beam.PCollection (X * kv.Pair))
          (input : beam.PCollection (gmap Partition bool)),
      beam.ParDo (fun r => prunePartitionsFn r.1 r.2 input) c
      = List.filter (fun r => in_partitions input (kv.K r.2)) c) /\
  (forall (X : Type) (fn : prunePartitionsFnForCount.t) (id : X)
          (partitionKey : codec.Value)
          (input : beam.PCollection (gmap Partition bool)),
      match codec.NewElementEncoder
              (codec.T (prunePartitionsFnForCount.PartitionType fn))
              partitionKey with
      | Success b =>
          prunePartitionsFnForCount.ProcessElement
            (prunePartitionsFnForCount.Setup fn) id partitionKey input
          = Ok (if in_partitions input b then [(id, partitionKey)] else [])
      | Failure _ =>
          exists msg,
            prunePartitionsFnForCount.ProcessElement
              (prunePartitionsFnForCount.Setup fn) id partitionKey input
            = Exit msg
      end) /\
  (forall (X : Type) (fn : prunePartitionsFnForCount.t)
          (c : beam.PCollection (X * codec.Value))
          (input : beam.PCollection (gmap Partition bool))
          (bytes : codec.Value -> list Byte.byte),
      (forall r, r ∈ c ->
         codec.NewElementEncoder
           (codec.T (prunePartitionsFnForCount.PartitionType fn)) r.2
         = Success (bytes r.2)) ->
      beam.ParDoE
        (fun r => prunePartitionsFnForCount.ProcessElement
                    (prunePartitionsFnForCount.Setup fn) r.1 r.2 input) c
      = Ok (List.filter (fun r => in_partitions input (bytes r.2)) c)).
Proof.
  split; [| split; [| split]].
  - intros X id pair input. unfold prunePartitionsFn, in_partitions.
    reflexivity.
  - intros X c input. apply prune_stream.
  - intros X fn id pk input.
    destruct (codec.NewElementEncoder _ pk) as [b | err] eqn:Henc.
    + now apply prune_for_count_element.
    + unfold prunePartitionsFnForCount.ProcessElement. simpl. rewrite Henc.
      eexists. reflexivity.
  - intros X fn c input bytes Henc. now apply prune_for_count_stream.
Qed.

(** C4. Both flavors of the partition-spec filter return the input
    collection unchanged when the number of partition sources is not one.
    With exactly one source, whose keys all encode, the sum/mean flavor
    returns the records whose encoded key is the encoding of a key of that
    source; so does the count/distinct_id flavor, once the records' keys
    encode. *)
Theorem dropUnspecifiedPartitions_spec `{C : codec.API} :
  (forall (X : Type) (partitions : list (beam.PCollection codec.Value))
          (pcol : PrivatePCollection (X * kv.Pair))
          (partitionT : codec.EncodedType),
      length partitions <> 1%nat ->
      dropUnspecifiedPartitions partitions pcol partitionT = Ok (col pcol)) /\
  (forall (X : Type) (partitions : list (beam.PCollection codec.Value))
          (pcol : PrivatePCollection (X * codec.Value))
          (partitionT : codec.FullType),
      length partitions <> 1%nat ->
      dropUnspecifiedPartitionsForCount partitions pcol partitionT
      = Ok (col pcol)) /\
  (forall (X : Type) (partitionsCol : beam.PCollection codec.Value)
          (pcol : PrivatePCollection (X * kv.Pair))
          (partitionT : codec.EncodedType),
      (forall x, x ∈ partitionsCol ->
         exists b, codec.NewElementEncoder (codec.T partitionT) x = Success b) ->
      exists input,
        dropUnspecifiedPartitions [partitionsCol] pcol partitionT
        = Ok (List.filter (fun r => in_partitions input (kv.K r.2)) (col pcol)) /\
        forall b, in_partitions input b = true <->
          exists x, x ∈ partitionsCol /\
            codec.NewElementEncoder (codec.T partitionT) x = Success b) /\
  (forall (X : Type) (partitionsCol : beam.PCollection codec.Value)
          (pcol : PrivatePCollection (X * codec.Value))
          (partitionT : codec.FullType)
          (bytes : codec.Value -> list Byte.byte),
      (forall x, x ∈ partitionsCol ->
         exists b,
           codec.NewElementEncoder (codec.FullType_Type partitionT) x
           = Success b) ->
      (forall r, r ∈ col pcol ->
         codec.NewElementEncoder (codec.FullType_Type partitionT) r.2
         = Success (bytes r.2)) ->
      exists input,
        dropUnspecifiedPartitionsForCount [partitionsCol] pcol partitionT
        = Ok (List.filter (fun r => in_partitions input (bytes r.2)) (col pcol)) /\
        forall b, in_partitions input b = true <->
          exists x, x ∈ partitionsCol /\
            codec.NewElementEncoder (codec.FullType_Type partitionT) x
            = Success b).
Proof.
  split; [| split; [| split]].
  - intros X partitions pcol pt Hlen. unfold dropUnspecifiedPartitions.
    destruct (Nat.eqb_spec (length partitions) 1) as [Heq | _]; [easy |].
    reflexivity.
  - intros X partitions pcol pt Hlen. unfold dropUnspecifiedPartitionsForCount.
    destruct (Nat.eqb_spec (length partitions) 1) as [Heq | _]; [easy |].
    reflexivity.
  - intros X pc pcol pt Henc.
    destruct (Combine_returns (newKVPartitionsHashMapFn pt) pc Henc)
      as [input Hinput].
    exists input. split.
    + unfold dropUnspecifiedPartitions. simpl. rewrite Hinput. simpl.
      now rewrite prune_stream.
    + apply (Combine_in_partitions _ _ _ Hinput).
  - intros X pc pcol ft bytes Henc Hrec.
    destruct (Combine_returns (newPartitionsHashMapFn ft) pc Henc)
      as [input Hinput].
    exists input. split.
    + unfold dropUnspecifiedPartitionsForCount. simpl. rewrite Hinput. simpl.
      now apply (prune_for_count_stream (newPrunePartitionsFnForCount ft)).
    + apply (Combine_in_partitions _ _ _ Hinput).
Qed.

Lemma prunePartitions_spec_witness :
  beam.ParDoE
    (fun r : nat * string =>
       @prunePartitionsFnForCount.ProcessElement stub.codec_api nat
         (prunePartitionsFnForCount.Setup (@newPrunePartitionsFnForCount stub.codec_api tt))
         r.1 r.2
         [ <[ mkPartition "b" := true ]> (<[ mkPartition "a" := true ]> ∅) ])
    [(1%nat, "a"%string); (2%nat, "c"%string); (3%nat, "b"%string)]
  = Ok [(1%nat, "a"%string); (3%nat, "b"%string)].
Proof.
  destruct (@prunePartitions_spec stub.codec_api) as (_ & _ & _ & Hstream).
  etrans.
  - apply (Hstream nat (@newPrunePartitionsFnForCount stub.codec_api tt)
             [(1%nat, "a"%string); (2%nat, "c"%string); (3%nat, "b"%string)]
             [ <[ mkPartition "b" := true ]> (<[ mkPartition "a" := true ]> ∅) ]
             String.list_byte_of_string).
    intros r Hr. elem_of_cases Hr ltac:(reflexivity).
  - vm_compute. reflexivity.
Defined.

Lemma dropUnspecifiedPartitions_spec_witness :
  @dropUnspecifiedPartitions stub.codec_api nat
    [ ["a"%string]; ["b"%string] ]
    (mkPrivatePCollection [(1%nat, kv.mk (String.list_byte_of_string "c") [])])
    (@codec.mkEncodedType stub.codec_api tt)
  = Ok [(1%nat, kv.mk (String.list_byte_of_string "c") [])] /\
  @dropUnspecifiedPartitionsForCount stub.codec_api nat []
    (mkPrivatePCollection [(1%nat, "c"%string)]) tt
  = Ok [(1%nat, "c"%string)] /\
  exists input,
    @dropUnspecifiedPartitions stub.codec_api nat
      [ ["a"%string; "b"%string] ]
      (mkPrivatePCollection
         [(1%nat, kv.mk (String.list_byte_of_string "a") []);
          (2%nat, kv.mk (String.list_byte_of_string "c") [])])
      (@codec.mkEncodedType stub.codec_api tt)
    = Ok (List.filter (fun r => in_partitions input (kv.K r.2))
            [(1%nat, kv.mk (String.list_byte_of_string "a") []);
             (2%nat, kv.mk (String.list_byte_of_string "c") [])]) /\
    forall b, in_partitions input b = true <->
      exists x, x ∈ ["a"%string; "b"%string] /\
        @codec.NewElementEncoder stub.codec_api tt x = Success b.
Proof.
  destruct (@dropUnspecifiedPartitions_spec stub.codec_api)
    as (Hsum & Hcount & Hone & _).
  split; [| split].
  - apply (Hsum nat [ ["a"%string]; ["b"%string] ]). simpl. lia.
  - apply (Hcount nat []). simpl. lia.
  - apply (Hone nat ["a"%string; "b"%string]
             (mkPrivatePCollection
                [(1%nat, kv.mk (String.list_byte_of_string "a") []);
                 (2%nat, kv.mk (String.list_byte_of_string "c") [])])
             (@codec.mkEncodedType stub.codec_api tt)).
    intros x Hx. elem_of_cases Hx ltac:(eexists; reflexivity).
Defined.

Example dropUnspecifiedPartitions_runs :
  @dropUnspecifiedPartitions stub.codec_api nat
    [ ["a"%string; "b"%string] ]
    (mkPrivatePCollection
       [(1%nat, kv.mk (String.list_byte_of_string "a") []);
        (2%nat, kv.mk (String.list_byte_of_string "c") [])])
    (@codec.mkEncodedType stub.codec_api tt)
  = Ok [(1%nat, kv.mk (String.list_byte_of_string "a") [])].
Proof. vm_compute. reflexivity. Qed.

(** ** Contribution bounding: the limit *)

Lemma int_of_int64_in_range (x : int64) : int64_range x -> int_of_int64 x = x.
Proof.
  unfold int64_range, int_of_int64, wrap. intros Hx.
  rewrite Z.mod_small by lia. lia.
Qed.

Lemma flattenValuesFn_map {T V : Type} (key : T) (values : list V) :
  flattenValuesFn key values = map (fun v => (key, v)) values.
Proof.
  unfold flattenValuesFn.
  enough (Hgen : forall acc,
             foldl (fun emitted v => emitted ++ [(key, v)]) acc values
             = acc ++ map (fun v => (key, v)) values)
    by apply (Hgen []).
  induction values as [| v values IH]; intros acc; simpl.
  - now rewrite app_nil_r.
  - rewrite IH, <- app_assoc. reflexivity.
Qed.

Section ValuesOf.
Context {K V : Type} `{EqDecision K}.

Lemma values_of_app (k : K) (c1 c2 : list (K * V)) :
  values_of k (c1 ++ c2) = values_of k c1 ++ values_of k c2.
Proof. unfold values_of. now rewrite filter_app, fmap_app. Qed.

Lemma values_of_flatten_same (k : K) (vs : list V) :
  values_of k (flattenValuesFn k vs) = vs.
Proof.
  rewrite flattenValuesFn_map. unfold values_of.
  induction vs as [| v vs IH]; [reflexivity |].
  cbn [map]. rewrite filter_cons.
  destruct (decide ((k, v).1 = k)) as [_ | Hne]; [| now contradict Hne].
  rewrite fmap_cons. cbn [snd]. f_equal. exact IH.
Qed.

Lemma values_of_flatten_other (k k' : K) (vs : list V) :
  k' <> k -> values_of k (flattenValuesFn k' vs) = [].
Proof.
  intros Hne. rewrite flattenValuesFn_map. unfold values_of.
  induction vs as [| v vs IH]; [reflexivity |].
  cbn [map]. rewrite filter_cons.
  destruct (decide ((k', v).1 = k)) as [Heq | _]; [now contradict Hne |].
  exact IH.
Qed.

Lemma values_of_absent (k : K) (c : list (K * V)) :
  k ∉ c.*1 -> values_of k c = [].
Proof.
  unfold values_of. induction c as [| [k' v] c IH]; [reflexivity |].
  rewrite fmap_cons. intros Hnotin.
  apply not_elem_of_cons in Hnotin as [Hne Hrest].
  rewrite filter_cons.
  destruct (decide ((k', v).1 = k)) as [Heq | _];
    [simpl in *; congruence |].
  now apply IH.
Qed.

(** Flattening a sampled collection with one slice per key gives each
    key the values of its slice. *)
Lemma values_of_flattened (k : K) (sampled : list (K * list V)) :
  NoDup sampled.*1 ->
  let out := beam.ParDo (fun kvs : K * list V => flattenValuesFn kvs.1 kvs.2)
               sampled in
  (k ∉ sampled.*1 -> values_of k out = []) /\
  (forall vs, (k, vs) ∈ sampled -> values_of k out = vs).
Proof.
  unfold beam.ParDo.
  induction sampled as [| [k' vs'] sampled IH]; simpl; intros Hnodup.
  - split; [reflexivity |]. intros vs Hin. inversion Hin.
  - apply NoDup_cons in Hnodup as [Hfresh Hnodup].
    destruct (IH Hnodup) as [IHabsent IHpresent].
    rewrite values_of_app. split.
    + intros Hnotin. apply not_elem_of_cons in Hnotin as [Hne Hrest].
      rewrite values_of_flatten_other by congruence. now apply IHabsent.
    + intros vs Hin. apply elem_of_cons in Hin as [Heq | Hin].
      * inversion Heq; subst.
        rewrite values_of_flatten_same, IHabsent by exact Hfresh.
        apply app_nil_r.
      * assert (Hne : k' <> k).
        { intros ->. apply Hfresh.
          apply list_elem_of_fmap. now exists (k, vs). }
        rewrite values_of_flatten_other by exact Hne. now apply IHpresent.
Qed.

End ValuesOf.

(** The sequential engine meets the contract. *)

Lemma insert_by_perm {V : Type} (less : V -> V -> World -> bool * World)
    (x : V) (l : list V) (w : World) :
  (stub.insert_by less x l w).1 ≡ₚ x :: l.
Proof.
  revert w. induction l as [| y l IH]; intros w; simpl; [reflexivity |].
  destruct (less y x w) as [[|] w1]; simpl; [reflexivity |].
  specialize (IH w1). destruct (stub.insert_by less x l w1) as [r w2].
  simpl in *. rewrite IH. apply Permutation_swap.
Qed.

Lemma sort_by_perm {V : Type} (less : V -> V -> World -> bool * World)
    (l : list V) (w : World) :
  (stub.sort_by less l w).1 ≡ₚ l.
Proof.
  induction l as [| x l IH]; simpl; [reflexivity |].
  destruct (stub.sort_by less l w) as [s w1]. simpl in IH.
  rewrite insert_by_perm. now rewrite IH.
Qed.

Lemma per_key_slices {K V : Type} `{EqDecision K}
    (less : V -> V -> World -> bool * World) (n : nat) (c : list (K * V))
    (keys : list K) (w : World) :
  (stub.per_key less n c keys w).1.*1 = keys /\
  forall k vs, (k, vs) ∈ (stub.per_key less n c keys w).1 ->
    vs ⊆+ values_of k c /\ length vs = Nat.min n (length (values_of k c)).
Proof.
  revert w. induction keys as [| k0 keys IH]; intros w; simpl.
  - split; [reflexivity |]. intros k vs Hin. inversion Hin.
  - pose proof (sort_by_perm less (values_of k0 c) w) as Hperm.
    destruct (stub.sort_by less (values_of k0 c) w) as [s w1]. simpl in Hperm.
    destruct (IH w1) as [IHkeys IHslices].
    destruct (stub.per_key less n c keys w1) as [rest w2]. simpl in *.
    split; [f_equal; exact IHkeys |].
    intros k vs Hin. apply elem_of_cons in Hin as [Heq | Hin].
    + inversion Heq; subst. split.
      * rewrite <- Hperm. apply sublist_submseteq, sublist_take.
      * rewrite length_take. now rewrite Hperm.
    + now apply IHslices.
Qed.

Lemma stub_engine_contract : @top.contract stub.top_api.
Proof.
  intros K V eqK c n less w Hpos. simpl. unfold stub.LargestPerKey.
  destruct (Z.ltb_spec n 1) as [Hlt | _]; [lia |].
  destruct (per_key_slices less (Z.to_nat n) c (remove_dups c.*1) w)
    as [Hkeys Hslices].
  destruct (stub.per_key less (Z.to_nat n) c (remove_dups c.*1) w)
    as [sampled w'] eqn:Hrun.
  simpl in *. exists sampled, w'. split; [reflexivity |].
  split; [| split].
  - rewrite Hkeys. apply NoDup_remove_dups.
  - intros k Hin. rewrite Hkeys. now apply elem_of_remove_dups.
  - exact Hslices.
Qed.

Example boundContributions_runs :
  exists w',
    @boundContributions stub.top_api string Z _
      [("u"%string, 5); ("u"%string, 7); ("u"%string, 9); ("v"%string, 1)] 2
      stub.world0
    = Ok ([("u"%string, 7); ("u"%string, 5); ("v"%string, 1)], w').
Proof. eexists. vm_compute. reflexivity. Qed.

Lemma dropThresholdedPartitions_spec_witness :
  (forall x : int64,
      ("b"%string, x)
        ∉ beam.ParDo (fun r => dropThresholdedPartitionsInt64Fn r.1 r.2)
            [("a"%string, Some 3); ("b"%string, None)]) /\
  "b"%string
    ∉ (beam.ParDo (fun r => dropThresholdedPartitionsInt64Fn r.1 r.2)
         [("a"%string, Some 3); ("b"%string, None)]).*1.
Proof.
  destruct dropThresholdedPartitions_spec as (_ & _ & _ & _ & Hint & _).
  destruct (Hint string [("a"%string, Some 3); ("b"%string, None)])
    as (_ & Hmem & Habsent).
  assert (Hnone : forall x : int64,
             ("b"%string, Some x) ∉ [("a"%string, Some 3); ("b"%string, None)]).
  { intros x Hin.
    repeat (apply elem_of_cons in Hin as [Heq | Hin]; [discriminate Heq |]).
    now apply elem_of_nil in Hin. }
  split.
  - intros x Hin. apply Hmem in Hin. exact (Hnone x Hin).
  - apply Habsent. exact Hnone.
Defined.

(** * Further properties *)

(** ** The life of an accumulator *)

Section AccumulatorLife.
Context `{D : dpagg.API}.

Lemma derivedInt64_flag (fn : boundedSumInt64Fn.t) (a : boundedSumAccumInt64.t) :
  derivedInt64 fn a ->
  boundedSumAccumInt64.PartitionsSpecified a
  = boundedSumInt64Fn.PartitionsSpecified fn.
Proof.
  induction 1 as [w w' a Hrun | w w' a a' value _ IH Hrun
                  | w w' a b c _ IHa _ _ Hrun].
  - unfold boundedSumInt64Fn.CreateAccumulator, bind in Hrun.
    destruct (dpagg.NewBoundedSumInt64 _ w) as [[bs w1] | |]; try discriminate.
    destruct (dpagg.NewPreAggSelectPartition _ w1) as [[sp w2] | |];
      try discriminate.
    inversion Hrun; subst. reflexivity.
  - unfold boundedSumInt64Fn.AddInput, bind in Hrun.
    destruct (dpagg.BoundedSumInt64_Add _ _ w) as [[bs w1] | |];
      try discriminate.
    destruct (dpagg.PreAggSelectPartition_Add _ w1) as [[sp w2] | |];
      try discriminate.
    inversion Hrun; subst. exact IH.
  - unfold boundedSumInt64Fn.MergeAccumulators, bind in Hrun.
    destruct (dpagg.BoundedSumInt64_Merge _ _ w) as [[bs w1] | |];
      try discriminate.
    destruct (dpagg.PreAggSelectPartition_Merge _ _ w1) as [[sp w2] | |];
      try discriminate.
    inversion Hrun; subst. exact IHa.
Qed.

Lemma derivedFloat64_flag (fn : boundedSumFloat64Fn.t)
    (a : boundedSumAccumFloat64.t) :
  derivedFloat64 fn a ->
  boundedSumAccumFloat64.PartitionsSpecified a
  = boundedSumFloat64Fn.PartitionsSpecified fn.
Proof.
  induction 1 as [w w' a Hrun | w w' a a' value _ IH Hrun
                  | w w' a b c _ IHa _ _ Hrun].
  - unfold boundedSumFloat64Fn.CreateAccumulator, bind in Hrun.
    destruct (dpagg.NewBoundedSumFloat64 _ w) as [[bs w1] | |];
      try discriminate.
    destruct (dpagg.NewPreAggSelectPartition _ w1) as [[sp w2] | |];
      try discriminate.
    inversion Hrun; subst. reflexivity.
  - unfold boundedSumFloat64Fn.AddInput, bind in Hrun.
    destruct (dpagg.BoundedSumFloat64_Add _ _ w) as [[bs w1] | |];
      try discriminate.
    destruct (dpagg.PreAggSelectPartition_Add _ w1) as [[sp w2] | |];
      try discriminate.
    inversion Hrun; subst. exact IH.
  - unfold boundedSumFloat64Fn.MergeAccumulators, bind in Hrun.
    destruct (dpagg.BoundedSumFloat64_Merge _ _ w) as [[bs w1] | |];
      try discriminate.
    destruct (dpagg.PreAggSelectPartition_Merge _ _ w1) as [[sp w2] | |];
      try discriminate.
    inversion Hrun; subst. exact IHa.
Qed.

(** X1. Every accumulator a combiner produces, through
    [CreateAccumulator], [AddInput] and [MergeAccumulators] in any number
    and order, carries the combiner's [PartitionsSpecified] flag; two
    accumulators of one combiner therefore never disagree on it. *)
Theorem accumulator_flag_invariant :
  (forall (fn : boundedSumInt64Fn.t) (a b : boundedSumAccumInt64.t),
      derivedInt64 fn a -> derivedInt64 fn b ->
      boundedSumAccumInt64.PartitionsSpecified a
      = boundedSumInt64Fn.PartitionsSpecified fn /\
      boundedSumAccumInt64.PartitionsSpecified a
      = boundedSumAccumInt64.PartitionsSpecified b) /\
  (forall (fn : boundedSumFloat64Fn.t) (a b : boundedSumAccumFloat64.t),
      derivedFloat64 fn a -> derivedFloat64 fn b ->
      boundedSumAccumFloat64.PartitionsSpecified a
      = boundedSumFloat64Fn.PartitionsSpecified fn /\
      boundedSumAccumFloat64.PartitionsSpecified a
      = boundedSumAccumFloat64.PartitionsSpecified b).
Proof.
  split; intros fn a b Ha Hb.
  - rewrite (derivedInt64_flag fn a Ha), (derivedInt64_flag fn b Hb). now split.
  - rewrite (derivedFloat64_flag fn a Ha), (derivedFloat64_flag fn b Hb).
    now split.
Qed.

(** X2. With [PartitionsSpecified] set on the combiner, [ExtractOutput] on
    any accumulator the combiner produced returns a non-nil result as
    soon as the sum sub-state returns, whatever the selection sub-state
    would say; [CorrectToInt64] and [CorrectToFloat64] then unwrap it
    without a panic. *)
Theorem specified_partition_is_unwrapped :
  (forall (X : Type) (key : X) (fn : boundedSumInt64Fn.t)
          (a : boundedSumAccumInt64.t) (w w1 : World) (result : int64),
      boundedSumInt64Fn.PartitionsSpecified fn = true ->
      derivedInt64 fn a ->
      dpagg.BoundedSumInt64_Result (boundedSumAccumInt64.BS a) w
        = Ok (result, w1) ->
      exists out,
        boundedSumInt64Fn.ExtractOutput fn a w = Ok (out, w1) /\
        CorrectToInt64 key out = Ok (key, result)) /\
  (forall (X : Type) (key : X) (fn : boundedSumFloat64Fn.t)
          (a : boundedSumAccumFloat64.t) (w w1 : World) (result : float64),
      boundedSumFloat64Fn.PartitionsSpecified fn = true ->
      derivedFloat64 fn a ->
      dpagg.BoundedSumFloat64_Result (boundedSumAccumFloat64.BS a) w
        = Ok (result, w1) ->
      exists out,
        boundedSumFloat64Fn.ExtractOutput fn a w = Ok (out, w1) /\
        CorrectToFloat64 key out = Ok (key, result)).
Proof.
  split; intros X key fn a w w1 result Hfn Hderived Hsum; exists (Some result).
  - split; [| reflexivity].
    apply ExtractOutput_int64_specified; [exact Hsum |].
    now rewrite (derivedInt64_flag fn a Hderived).
  - split; [| reflexivity].
    apply ExtractOutput_float64_specified; [exact Hsum |].
    now rewrite (derivedFloat64_flag fn a Hderived).
Qed.

(** X3. Without [PartitionsSpecified] on the combiner, what the drop step
    emits for a partition is decided by the selection sub-state alone:
    the noised sum when its [Result()] is true, nothing when it is
    false. *)
Theorem unspecified_partition_is_thresholded :
  (forall (V : Type) (key : V) (fn : boundedSumInt64Fn.t)
          (a : boundedSumAccumInt64.t) (w w1 w2 : World) (result : int64)
          (keep : bool),
      boundedSumInt64Fn.PartitionsSpecified fn = false ->
      derivedInt64 fn a ->
      dpagg.BoundedSumInt64_Result (boundedSumAccumInt64.BS a) w
        = Ok (result, w1) ->
      dpagg.PreAggSelectPartition_Result (boundedSumAccumInt64.SP a) w1
        = Ok (keep, w2) ->
      exists out,
        boundedSumInt64Fn.ExtractOutput fn a w = Ok (out, w2) /\
        dropThresholdedPartitionsInt64Fn key out
        = if keep then [(key, result)] else []) /\
  (forall (V : Type) (key : V) (fn : boundedSumFloat64Fn.t)
          (a : boundedSumAccumFloat64.t) (w w1 w2 : World) (result : float64)
          (keep : bool),
      boundedSumFloat64Fn.PartitionsSpecified fn = false ->
      derivedFloat64 fn a ->
      dpagg.BoundedSumFloat64_Result (boundedSumAccumFloat64.BS a) w
        = Ok (result, w1) ->
      dpagg.PreAggSelectPartition_Result (boundedSumAccumFloat64.SP a) w1
        = Ok (keep, w2) ->
      exists out,
        boundedSumFloat64Fn.ExtractOutput fn a w = Ok (out, w2) /\
        dropThresholdedPartitionsFloat64Fn key out
        = if keep then [(key, result)] else []).
Proof.
  split; intros V key fn a w w1 w2 result keep Hfn Hderived Hsum Hsel;
    exists (if keep then Some result else None).
  - split; [| now destruct keep].
    apply (ExtractOutput_int64_selected fn a w w1 w2 result keep Hsum);
      [| exact Hsel].
    now rewrite (derivedInt64_flag fn a Hderived).
  - split; [| now destruct keep].
    apply (ExtractOutput_float64_selected fn a w w1 w2 result keep Hsum);
      [| exact Hsel].
    now rewrite (derivedFloat64_flag fn a Hderived).
Qed.

End AccumulatorLife.

Lemma stub_derived_created (ps : bool) :
  @derivedInt64 stub.noise_api stub.dpagg_api (stub.fnInt64 ps)
    (stub.accInt64 0 0 ps).
Proof.
  apply (@derivedInt64_create stub.noise_api stub.dpagg_api (stub.fnInt64 ps)
           stub.world0 stub.world0).
  reflexivity.
Defined.

Lemma stub_derived_added (ps : bool) :
  @derivedInt64 stub.noise_api stub.dpagg_api (stub.fnInt64 ps)
    (stub.accInt64 5 1 ps).
Proof.
  apply (@derivedInt64_add stub.noise_api stub.dpagg_api (stub.fnInt64 ps)
           stub.world0 stub.world0 (stub.accInt64 0 0 ps) _ 5
           (stub_derived_created ps)).
  reflexivity.
Defined.

Lemma accumulator_flag_invariant_witness :
  boundedSumAccumInt64.PartitionsSpecified (stub.accInt64 5 1 true)
  = boundedSumInt64Fn.PartitionsSpecified (stub.fnInt64 true) /\
  boundedSumAccumInt64.PartitionsSpecified (stub.accInt64 5 1 true)
  = boundedSumAccumInt64.PartitionsSpecified (stub.accInt64 0 0 true).
Proof.
  apply (proj1 (@accumulator_flag_invariant stub.noise_api stub.dpagg_api)
           (stub.fnInt64 true) (stub.accInt64 5 1 true) (stub.accInt64 0 0 true)
           (stub_derived_added true) (stub_derived_created true)).
Defined.

Lemma specified_partition_is_unwrapped_witness :
  exists out,
    boundedSumInt64Fn.ExtractOutput (stub.fnInt64 true) (stub.accInt64 5 1 true)
      stub.world0 = Ok (out, stub.world0) /\
    CorrectToInt64 "p1"%string out = Ok ("p1"%string, 5).
Proof.
  apply (proj1 (@specified_partition_is_unwrapped stub.noise_api stub.dpagg_api)
           string "p1"%string (stub.fnInt64 true) (stub.accInt64 5 1 true)
           stub.world0 stub.world0 5 eq_refl (stub_derived_added true) eq_refl).
Defined.

Lemma unspecified_partition_is_thresholded_witness :
  exists out,
    boundedSumInt64Fn.ExtractOutput (stub.fnInt64 false)
      (stub.accInt64 5 1 false) stub.world0 = Ok (out, stub.world0) /\
    dropThresholdedPartitionsInt64Fn "p1"%string out = [].
Proof.
  apply (proj1 (@unspecified_partition_is_thresholded stub.noise_api
                  stub.dpagg_api)
           string "p1"%string (stub.fnInt64 false) (stub.accInt64 5 1 false)
           stub.world0 stub.world0 stub.world0 5 false eq_refl
           (stub_derived_added false) eq_refl eq_refl).
Defined.

(** ** From the budget to the primitives *)

(** X4. A combiner made by the constructor and set up creates its
    accumulators with these options: the sum primitive gets
    [epsilon / 2], the noise of the kind, and [delta / 2] for Gaussian
    noise but [0] otherwise; the selection primitive gets [epsilon / 2]
    and [delta / 2] for Gaussian noise but all of [delta] otherwise. The
    accumulator records the constructor's [partitionsSpecified]. *)
Theorem budget_reaches_primitives `{D : dpagg.API} :
  (forall (epsilon delta : float64) (maxPartitionsContributed lower upper : int64)
          (noiseKind : noise.Kind) (partitionsSpecified : bool)
          (fn : boundedSumInt64Fn.t) (w : World),
      newBoundedSumInt64Fn epsilon delta maxPartitionsContributed lower upper
        noiseKind partitionsSpecified = Ok fn ->
      boundedSumInt64Fn.CreateAccumulator (boundedSumInt64Fn.Setup fn) w
      = (let* bs := dpagg.NewBoundedSumInt64
           (dpagg.BoundedSumInt64Options.mk _
              (epsilon / 2)%float
              (if noiseKind =? noise.GaussianNoise
               then (delta / 2)%float else 0%float)
              maxPartitionsContributed lower upper
              (noise.ToNoise noiseKind)) in
         let* sp := dpagg.NewPreAggSelectPartition
           (dpagg.PreAggSelectPartitionOptions.mk
              (epsilon / 2)%float
              (if noiseKind =? noise.GaussianNoise
               then (delta / 2)%float else delta)
              maxPartitionsContributed) in
         ret (boundedSumAccumInt64.mk _ _ bs sp partitionsSpecified)) w) /\
  (forall (epsilon delta : float64) (maxPartitionsContributed : int64)
          (lower upper : float64)
          (noiseKind : noise.Kind) (partitionsSpecified : bool)
          (fn : boundedSumFloat64Fn.t) (w : World),
      newBoundedSumFloat64Fn epsilon delta maxPartitionsContributed lower upper
        noiseKind partitionsSpecified = Ok fn ->
      boundedSumFloat64Fn.CreateAccumulator (boundedSumFloat64Fn.Setup fn) w
      = (let* bs := dpagg.NewBoundedSumFloat64
           (dpagg.BoundedSumFloat64Options.mk _
              (epsilon / 2)%float
              (if noiseKind =? noise.GaussianNoise
               then (delta / 2)%float else 0%float)
              maxPartitionsContributed lower upper
              (noise.ToNoise noiseKind)) in
         let* sp := dpagg.NewPreAggSelectPartition
           (dpagg.PreAggSelectPartitionOptions.mk
              (epsilon / 2)%float
              (if noiseKind =? noise.GaussianNoise
               then (delta / 2)%float else delta)
              maxPartitionsContributed) in
         ret (boundedSumAccumFloat64.mk _ _ bs sp partitionsSpecified)) w).
Proof.
  split; intros epsilon delta mpc lower upper kind ps fn w Hmade.
  - unfold newBoundedSumInt64Fn in Hmade.
    destruct (kind =? noise.GaussianNoise);
      [| destruct (kind =? noise.LaplaceNoise); [| discriminate]];
      inversion Hmade; subst; reflexivity.
  - unfold newBoundedSumFloat64Fn in Hmade.
    destruct (kind =? noise.GaussianNoise);
      [| destruct (kind =? noise.LaplaceNoise); [| discriminate]];
      inversion Hmade; subst; reflexivity.
Qed.

Lemma budget_reaches_primitives_witness :
  boundedSumInt64Fn.CreateAccumulator
    (boundedSumInt64Fn.Setup
       (boundedSumInt64Fn.mk stub.noise_api 0.5%float 0.5%float 0%float
          0.25%float 3 0 10 2 0 false))
    stub.world0
  = Ok (stub.accInt64 0 0 false, stub.world0).
Proof.
  etrans.
  - apply (proj1 (@budget_reaches_primitives stub.noise_api stub.dpagg_api)
             1%float 0.25%float 3 0 10 2 false).
    reflexivity.
  - reflexivity.
Defined.

(** ** Building the partition set *)

Section PartitionSetBuild.
Context `{C : codec.API}.

Local Abbreviation all_true := (map_Forall (fun (_ : Partition) (v : bool) => v = true)).

Lemma map_index_true_lookup (m : gmap Partition bool) (k : Partition) :
  map_index m k = true <-> m !! k = Some true.
Proof.
  unfold map_index. destruct (m !! k) as [[|] |]; simpl; split; congruence.
Qed.

Lemma all_true_index_ext (m1 m2 : gmap Partition bool) :
  all_true m1 -> all_true m2 ->
  (forall k, map_index m1 k = true <-> map_index m2 k = true) ->
  m1 = m2.
Proof.
  intros H1 H2 Hsame. apply map_eq. intros k.
  specialize (Hsame k). rewrite !map_index_true_lookup in Hsame.
  destruct (m1 !! k) as [v1 |] eqn:E1, (m2 !! k) as [v2 |] eqn:E2.
  - now rewrite (H1 k v1 E1), (H2 k v2 E2).
  - rewrite (H1 k v1 E1) in *. destruct Hsame as [Hsame _].
    discriminate (Hsame eq_refl).
  - rewrite (H2 k v2 E2) in *. destruct Hsame as [_ Hsame].
    discriminate (Hsame eq_refl).
  - reflexivity.
Qed.

Lemma merge_as_union (fn : partitionsHashMapFn.t) (a b : mapAccum.t) :
  mapAccum.PartitionMap (partitionsHashMapFn.MergeAccumulators fn a b)
  = ((fun _ => true) <$> mapAccum.PartitionMap a) ∪ mapAccum.PartitionMap b.
Proof.
  unfold partitionsHashMapFn.MergeAccumulators. simpl.
  apply (map_fold_weak_ind
           (fun (r : gmap Partition bool) (m : gmap Partition bool) =>
              r = ((fun _ => true) <$> m) ∪ mapAccum.PartitionMap b)).
  - now rewrite fmap_empty, (left_id_L ∅ (∪)).
  - intros i x m r _ ->. now rewrite fmap_insert, insert_union_l.
Qed.

Lemma all_true_fmap_id (m : gmap Partition bool) :
  all_true m -> (fun _ => true) <$> m = m.
Proof.
  intros Hm. apply map_eq. intros k. rewrite lookup_fmap.
  destruct (m !! k) as [v |] eqn:E; simpl; [| reflexivity].
  now rewrite (Hm k v E).
Qed.

Lemma all_true_union (m1 m2 : gmap Partition bool) :
  all_true m1 -> all_true m2 -> all_true (m1 ∪ m2).
Proof.
  intros H1 H2 k v Hk. apply lookup_union_Some_raw in Hk as [Hk | [_ Hk]].
  - exact (H1 k v Hk).
  - exact (H2 k v Hk).
Qed.

Lemma all_true_union_comm (m1 m2 : gmap Partition bool) :
  all_true m1 -> all_true m2 -> m1 ∪ m2 = m2 ∪ m1.
Proof.
  intros H1 H2.
  apply all_true_index_ext; try now apply all_true_union.
  intros k. rewrite !map_index_true_lookup, !lookup_union_Some_raw.
  split.
  - intros [Hk | [Hnone Hk]]; [| now left].
    destruct (m2 !! k) as [v |] eqn:E; [| now right].
    left. now rewrite (H2 k v E).
  - intros [Hk | [Hnone Hk]]; [| now left].
    destruct (m1 !! k) as [v |] eqn:E; [| now right].
    left. now rewrite (H1 k v E).
Qed.

Lemma add_all_all_true (fn0 : partitionsHashMapFn.t)
    (c : beam.PCollection codec.Value) :
  forall m m' : mapAccum.t,
    all_true (mapAccum.PartitionMap m) ->
    combine.add_all (partitionsHashMapFn.Setup fn0) m c = Ok m' ->
    all_true (mapAccum.PartitionMap m').
Proof.
  induction c as [| x c IH]; intros m m' Hm Hrun; simpl in Hrun.
  - now inversion Hrun; subst.
  - unfold partitionsHashMapFn.AddInput in Hrun. simpl in Hrun.
    destruct (codec.NewElementEncoder _ x) as [b | err]; simpl in Hrun;
      [| discriminate].
    apply (IH _ _ (map_Forall_insert_2 _ _ _ _ eq_refl Hm) Hrun).
Qed.

Lemma add_all_outcome (fn0 : partitionsHashMapFn.t)
    (c : beam.PCollection codec.Value) :
  forall m : mapAccum.t,
    (exists m', combine.add_all (partitionsHashMapFn.Setup fn0) m c = Ok m' /\
       forall x, x ∈ c ->
         exists b,
           codec.NewElementEncoder
             (codec.T (partitionsHashMapFn.PartitionType fn0)) x = Success b) \/
    (exists msg x err,
       combine.add_all (partitionsHashMapFn.Setup fn0) m c = Exit msg /\
       x ∈ c /\
       codec.NewElementEncoder
         (codec.T (partitionsHashMapFn.PartitionType fn0)) x = Failure err).
Proof.
  induction c as [| x c IH]; intros m; simpl.
  - left. exists m. split; [reflexivity |]. intros x Hx. inversion Hx.
  - unfold partitionsHashMapFn.AddInput. simpl.
    destruct (codec.NewElementEncoder _ x) as [b | err] eqn:Henc; simpl.
    + destruct (IH {| mapAccum.PartitionMap :=
                        <[ {| PartitionKey := string_of_bytes b |} := true ]>
                          (mapAccum.PartitionMap m) |})
        as [(m' & Hrun & Hall) | (msg & y & err & Hrun & Hy & Hfail)].
      * left. exists m'. split; [exact Hrun |].
        intros y Hy. apply elem_of_cons in Hy as [-> | Hy]; [eauto | eauto].
      * right. exists msg, y, err. split; [exact Hrun |].
        split; [now right | exact Hfail].
    + right. eexists _, x, err. split; [reflexivity |]. split; [left | exact Henc].
Qed.

Lemma Combine_exits (fn0 : partitionsHashMapFn.t)
    (c : beam.PCollection codec.Value) :
  (exists x err, x ∈ c /\
     codec.NewElementEncoder
       (codec.T (partitionsHashMapFn.PartitionType fn0)) x = Failure err) ->
  exists msg, combine.Combine fn0 c = Exit msg.
Proof.
  intros (x & err & Hx & Hfail). unfold combine.Combine.
  destruct c as [| x0 c]; [inversion Hx |].
  destruct (add_all_outcome fn0 (x0 :: c)
              (partitionsHashMapFn.CreateAccumulator
                 (partitionsHashMapFn.Setup fn0)))
    as [(m' & _ & Hall) | (msg & _ & _ & Hrun & _)].
  - destruct (Hall x Hx) as [b Hb]. congruence.
  - rewrite Hrun. now exists msg.
Qed.

(** X5. The build of the partition set returns exactly when every
    supplied partition key can be encoded; one key that cannot ends the
    process ([log.Exitf]), and a set-up function never panics. *)
Theorem partition_set_build_outcome (fn0 : partitionsHashMapFn.t)
    (c : beam.PCollection codec.Value) :
  ((forall x, x ∈ c ->
      exists b,
        codec.NewElementEncoder
          (codec.T (partitionsHashMapFn.PartitionType fn0)) x = Success b) <->
   exists input, combine.Combine fn0 c = Ok input) /\
  ((exists x err, x ∈ c /\
      codec.NewElementEncoder
        (codec.T (partitionsHashMapFn.PartitionType fn0)) x = Failure err) <->
   exists msg, combine.Combine fn0 c = Exit msg) /\
  (forall msg, combine.Combine fn0 c <> Panic msg).
Proof.
  unfold combine.Combine. destruct c as [| x0 c].
  - split; [| split].
    + split; [intros _; now exists [] |]. intros _ x Hx. inversion Hx.
    + split; [intros (x & err & Hx & _); inversion Hx |].
      intros [msg Hmsg]. discriminate.
    + discriminate.
  - destruct (add_all_outcome fn0 (x0 :: c)
                (partitionsHashMapFn.CreateAccumulator
                   (partitionsHashMapFn.Setup fn0)))
      as [(m' & Hrun & Hall) | (msg & y & err & Hrun & Hy & Hfail)];
      rewrite Hrun; simpl.
    + split; [| split].
      * split; [intros _; eexists; reflexivity | intros _; exact Hall].
      * split; [| intros [msg Hmsg]; discriminate].
        intros (x & err & Hx & Hfail). destruct (Hall x Hx) as [b Hb].
        congruence.
      * discriminate.
    + split; [| split].
      * split; [| intros [input Hin]; discriminate].
        intros Hall. destruct (Hall y Hy) as [b Hb]. congruence.
      * split; [intros _; now exists msg | intros _; now exists y, err].
      * discriminate.
Qed.

(** X6. Merging two build accumulators gives the union of their key
    sets: the merged map is the second map with every key of the first
    set to [true]. Merging is associative; on maps that hold only [true]
    (as every map built by [AddInput] does) it is commutative and
    idempotent, and its result holds only [true] again. *)
Theorem partition_map_merge (fn : partitionsHashMapFn.t) :
  (forall (a b : mapAccum.t) (k : Partition),
      map_index
        (mapAccum.PartitionMap (partitionsHashMapFn.MergeAccumulators fn a b)) k
      = true <->
      is_Some (mapAccum.PartitionMap a !! k) \/
      map_index (mapAccum.PartitionMap b) k = true) /\
  (forall a b c : mapAccum.t,
      partitionsHashMapFn.MergeAccumulators fn a
        (partitionsHashMapFn.MergeAccumulators fn b c)
      = partitionsHashMapFn.MergeAccumulators fn
          (partitionsHashMapFn.MergeAccumulators fn a b) c) /\
  (forall a b : mapAccum.t,
      all_true (mapAccum.PartitionMap a) ->
      all_true (mapAccum.PartitionMap b) ->
      partitionsHashMapFn.MergeAccumulators fn a b
      = partitionsHashMapFn.MergeAccumulators fn b a /\
      partitionsHashMapFn.MergeAccumulators fn a a = a /\
      all_true
        (mapAccum.PartitionMap (partitionsHashMapFn.MergeAccumulators fn a b))).
Proof.
  split; [| split].
  - intros a b k. apply MergeAccumulators_index.
  - intros a b c.
    enough (Hmaps :
              mapAccum.PartitionMap
                (partitionsHashMapFn.MergeAccumulators fn a
                   (partitionsHashMapFn.MergeAccumulators fn b c))
              = mapAccum.PartitionMap
                  (partitionsHashMapFn.MergeAccumulators fn
                     (partitionsHashMapFn.MergeAccumulators fn a b) c)).
    { destruct (partitionsHashMapFn.MergeAccumulators fn a _),
               (partitionsHashMapFn.MergeAccumulators fn _ c).
      simpl in Hmaps. now subst. }
    rewrite !merge_as_union, map_fmap_union, <- map_fmap_compose.
    rewrite (assoc_L (∪)). reflexivity.
  - intros [a] [b] Ha Hb. simpl in Ha, Hb.
    assert (Hmaps : forall x y : gmap Partition bool,
               all_true x ->
               mapAccum.PartitionMap
                 (partitionsHashMapFn.MergeAccumulators fn
                    (mapAccum.mk x) (mapAccum.mk y)) = x ∪ y).
    { intros x y Hx. rewrite merge_as_union. simpl.
      now rewrite (all_true_fmap_id x Hx). }
    assert (Hrecord : forall (r : mapAccum.t) (m : gmap Partition bool),
               mapAccum.PartitionMap r = m -> r = mapAccum.mk m).
    { intros [r] m Hr. simpl in Hr. now subst. }
    split; [| split].
    + rewrite (Hrecord _ _ (Hmaps a b Ha)), (Hrecord _ _ (Hmaps b a Hb)).
      f_equal. now apply all_true_union_comm.
    + rewrite (Hrecord _ _ (Hmaps a a Ha)). f_equal.
      apply (idemp_L (∪)).
    + rewrite (Hmaps a b Ha). now apply all_true_union.
Qed.

End PartitionSetBuild.

Section ShardedBuild.
Context `{C : codec.API}.

Local Abbreviation all_true := (map_Forall (fun (_ : Partition) (v : bool) => v = true)).

Lemma merge_all_true (fn : partitionsHashMapFn.t) (a b : mapAccum.t) :
  all_true (mapAccum.PartitionMap b) ->
  all_true (mapAccum.PartitionMap (partitionsHashMapFn.MergeAccumulators fn a b)).
Proof.
  intros Hb. rewrite merge_as_union. apply all_true_union; [| exact Hb].
  intros k v Hk. rewrite lookup_fmap in Hk.
  destruct (mapAccum.PartitionMap a !! k); simpl in Hk; congruence.
Qed.

(** What a build over [c] from the empty accumulator holds. *)
Lemma build_determined (fn0 : partitionsHashMapFn.t)
    (c : beam.PCollection codec.Value) (m : mapAccum.t) :
  combine.add_all (partitionsHashMapFn.Setup fn0)
    (partitionsHashMapFn.CreateAccumulator (partitionsHashMapFn.Setup fn0)) c
    = Ok m ->
  all_true (mapAccum.PartitionMap m) /\
  (forall x, x ∈ c ->
     exists b,
       codec.NewElementEncoder
         (codec.T (partitionsHashMapFn.PartitionType fn0)) x = Success b) /\
  forall k, map_index (mapAccum.PartitionMap m) k = true <->
    exists x b, x ∈ c /\
      codec.NewElementEncoder
        (codec.T (partitionsHashMapFn.PartitionType fn0)) x = Success b /\
      k = {| PartitionKey := string_of_bytes b |}.
Proof.
  intros Hrun. split; [| split].
  - apply (add_all_all_true fn0 c
             (partitionsHashMapFn.CreateAccumulator
                (partitionsHashMapFn.Setup fn0)) m); [| exact Hrun].
    apply map_Forall_empty.
  - destruct (add_all_outcome fn0 c
                (partitionsHashMapFn.CreateAccumulator
                   (partitionsHashMapFn.Setup fn0)))
      as [(m' & _ & Hall) | (msg & y & err & Hfail & _)];
      [exact Hall | congruence].
  - intros k. rewrite (add_all_index fn0 c _ m Hrun k). simpl.
    split; [| now right]. intros [Hempty | Hsome]; [discriminate | exact Hsome].
Qed.

Lemma accum_eq (m1 m2 : mapAccum.t) :
  all_true (mapAccum.PartitionMap m1) ->
  all_true (mapAccum.PartitionMap m2) ->
  (forall k, map_index (mapAccum.PartitionMap m1) k = true <->
             map_index (mapAccum.PartitionMap m2) k = true) ->
  m1 = m2.
Proof.
  destruct m1 as [m1], m2 as [m2]. simpl. intros H1 H2 Hsame.
  f_equal. now apply all_true_index_ext.
Qed.

(** X7. The build does not depend on how the engine splits or orders the
    partition keys: building two shards apart and merging the two
    accumulators gives the accumulator of one build over both shards,
    and a build over a reordering of the keys gives the same
    accumulator. *)
Theorem partition_set_build_sharded (fn0 : partitionsHashMapFn.t)
    (c1 c2 : beam.PCollection codec.Value) (m1 m2 : mapAccum.t) :
  let fn := partitionsHashMapFn.Setup fn0 in
  combine.add_all fn (partitionsHashMapFn.CreateAccumulator fn) c1 = Ok m1 ->
  combine.add_all fn (partitionsHashMapFn.CreateAccumulator fn) c2 = Ok m2 ->
  combine.add_all fn (partitionsHashMapFn.CreateAccumulator fn) (c1 ++ c2)
    = Ok (partitionsHashMapFn.MergeAccumulators fn m1 m2) /\
  forall c' : beam.PCollection codec.Value,
    c' ≡ₚ c1 ->
    combine.add_all fn (partitionsHashMapFn.CreateAccumulator fn) c' = Ok m1.
Proof.
  intros fn H1 H2. subst fn.
  destruct (build_determined fn0 c1 m1 H1) as (Htrue1 & Henc1 & Hidx1).
  destruct (build_determined fn0 c2 m2 H2) as (Htrue2 & Henc2 & Hidx2).
  split.
  - destruct (add_all_returns fn0 (c1 ++ c2)) with
      (m := partitionsHashMapFn.CreateAccumulator (partitionsHashMapFn.Setup fn0))
      as [m Hrun].
    { intros x Hx. apply elem_of_app in Hx as [Hx | Hx]; eauto. }
    rewrite Hrun. f_equal.
    destruct (build_determined fn0 (c1 ++ c2) m Hrun) as (Htrue & _ & Hidx).
    apply accum_eq; [exact Htrue | now apply merge_all_true |].
    intros k. rewrite Hidx, MergeAccumulators_index, Hidx2.
    assert (Hsome : is_Some (mapAccum.PartitionMap m1 !! k) <->
                    map_index (mapAccum.PartitionMap m1) k = true).
    { rewrite map_index_true_lookup. split.
      - intros [v Hv]. now rewrite Hv, (Htrue1 k v Hv).
      - intros Hv. eauto. }
    rewrite Hsome, Hidx1. split.
    + intros (x & b & Hx & Hb & ->).
      apply elem_of_app in Hx as [Hx | Hx]; [left | right]; eauto.
    + intros [(x & b & Hx & Hb & ->) | (x & b & Hx & Hb & ->)];
        exists x, b; (split; [apply elem_of_app; eauto | eauto]).
  - intros c' Hperm.
    destruct (add_all_returns fn0 c') with
      (m := partitionsHashMapFn.CreateAccumulator (partitionsHashMapFn.Setup fn0))
      as [m Hrun].
    { intros x Hx. apply Henc1. now rewrite <- Hperm. }
    rewrite Hrun. f_equal.
    destruct (build_determined fn0 c' m Hrun) as (Htrue & _ & Hidx).
    apply accum_eq; [exact Htrue | exact Htrue1 |].
    intros k. rewrite Hidx, Hidx1.
    split; intros (x & b & Hx & Hb & ->); exists x, b;
      (split; [| eauto]); [now rewrite <- Hperm | now rewrite Hperm].
Qed.

End ShardedBuild.

Lemma partition_set_build_sharded_witness :
  combine.add_all
    (partitionsHashMapFn.Setup (@newPartitionsHashMapFn stub.codec_api tt))
    (partitionsHashMapFn.CreateAccumulator
       (partitionsHashMapFn.Setup (@newPartitionsHashMapFn stub.codec_api tt)))
    (["a"%string; "b"%string] ++ ["b"%string; "c"%string])
  = Ok (partitionsHashMapFn.MergeAccumulators
          (partitionsHashMapFn.Setup (@newPartitionsHashMapFn stub.codec_api tt))
          (mapAccum.mk
             (<[ mkPartition "b" := true ]> (<[ mkPartition "a" := true ]> ∅)))
          (mapAccum.mk
             (<[ mkPartition "c" := true ]> (<[ mkPartition "b" := true ]> ∅)))).
Proof.
  apply (@partition_set_build_sharded stub.codec_api
           (@newPartitionsHashMapFn stub.codec_api tt)
           ["a"%string; "b"%string] ["b"%string; "c"%string]);
    reflexivity.
Defined.

Lemma partition_map_merge_witness :
  partitionsHashMapFn.MergeAccumulators
    (@newPartitionsHashMapFn stub.codec_api tt)
    (mapAccum.mk (<[ mkPartition "a" := true ]> ∅))
    (mapAccum.mk (<[ mkPartition "b" := true ]> ∅))
  = partitionsHashMapFn.MergeAccumulators
      (@newPartitionsHashMapFn stub.codec_api tt)
      (mapAccum.mk (<[ mkPartition "b" := true ]> ∅))
      (mapAccum.mk (<[ mkPartition "a" := true ]> ∅)).
Proof.
  apply (proj2 (proj2 (@partition_map_merge stub.codec_api
                         (@newPartitionsHashMapFn stub.codec_api tt)))
           (mapAccum.mk (<[ mkPartition "a" := true ]> ∅))
           (mapAccum.mk (<[ mkPartition "b" := true ]> ∅))).
  - apply map_Forall_insert_2; [reflexivity | apply map_Forall_empty].
  - apply map_Forall_insert_2; [reflexivity | apply map_Forall_empty].
Defined.

Lemma partition_set_build_outcome_witness :
  (exists input,
     @combine.Combine stub.codec_api (@newPartitionsHashMapFn stub.codec_api tt)
       ["a"%string; "b"%string] = Ok input) /\
  (exists msg,
     @combine.Combine stub.codec_api (@newPartitionsHashMapFn stub.codec_api tt)
       ["a"%string; ""%string] = Exit msg).
Proof.
  split.
  - apply (proj1 (@partition_set_build_outcome stub.codec_api
                    (@newPartitionsHashMapFn stub.codec_api tt)
                    ["a"%string; "b"%string])).
    intros x Hx. elem_of_cases Hx ltac:(eexists; reflexivity).
  - apply (proj1 (proj2 (@partition_set_build_outcome stub.codec_api
                           (@newPartitionsHashMapFn stub.codec_api tt)
                           ["a"%string; ""%string]))).
    exists ""%string, "empty"%string. split; [| reflexivity].
    right. left.
Defined.

(** ** The partition-spec filter on whole collections *)

Lemma List_filter_sublist {A : Type} (p : A -> bool) (l : list A) :
  List.filter p l `sublist_of` l.
Proof.
  induction l as [| x l IH]; simpl; [constructor |].
  destruct (p x); [now apply sublist_skip | now apply sublist_cons].
Qed.

Lemma List_filter_idemp {A : Type} (p : A -> bool) (l : list A) :
  List.filter p (List.filter p l) = List.filter p l.
Proof.
  induction l as [| x l IH]; simpl; [reflexivity |].
  destruct (p x) eqn:Hp; simpl; [rewrite Hp; now f_equal | exact IH].
Qed.

Lemma ParDoE_sublist_idemp {A : Type} (f : A -> outcome (list A))
    (c out : list A) :
  (forall x l, f x = Ok l -> l = [] \/ l = [x]) ->
  beam.ParDoE f c = Ok out ->
  out `sublist_of` c /\ beam.ParDoE f out = Ok out.
Proof.
  intros Hf. revert out. induction c as [| x c IH]; intros out Hrun;
    simpl in Hrun.
  - inversion Hrun; subst. split; [constructor | reflexivity].
  - destruct (f x) as [l | |] eqn:Hx; simpl in Hrun; try discriminate.
    destruct (beam.ParDoE f c) as [outs | |]; simpl in Hrun; try discriminate.
    inversion Hrun; subst. destruct (IH outs eq_refl) as [Hsub Hagain].
    destruct (Hf x l Hx) as [-> | ->]; simpl.
    + split; [now apply sublist_cons | exact Hagain].
    + split; [now apply sublist_skip |]. now rewrite Hx, Hagain.
Qed.

Section FilterCollections.
Context `{C : codec.API}.

Lemma prune_for_count_emits {X : Type} (fn : prunePartitionsFnForCount.t)
    (input : beam.PCollection (gmap Partition bool))
    (r : X * codec.Value) (l : list (X * codec.Value)) :
  prunePartitionsFnForCount.ProcessElement fn r.1 r.2 input = Ok l ->
  l = [] \/ l = [r].
Proof.
  unfold prunePartitionsFnForCount.ProcessElement.
  destruct (prunePartitionsFnForCount.partitionEnc fn) as [enc |];
    [| discriminate].
  destruct (enc r.2) as [b | err]; [| discriminate].
  destruct (map_index _ _); intros Hl; inversion Hl; subst;
    [right; now destruct r | now left].
Qed.

(** X8. Whatever the number of partition sources, a filter that returns
    gives back a sub-sequence of its input collection (records are
    neither added, nor changed, nor reordered), and filtering that
    output again with the same sources changes nothing. *)
Theorem dropUnspecifiedPartitions_sublist_idempotent :
  (forall (X : Type) (partitions : list (beam.PCollection codec.Value))
          (pcol : PrivatePCollection (X * kv.Pair))
          (partitionT : codec.EncodedType) (out : beam.PCollection (X * kv.Pair)),
      dropUnspecifiedPartitions partitions pcol partitionT = Ok out ->
      out `sublist_of` col pcol /\
      dropUnspecifiedPartitions partitions (mkPrivatePCollection out) partitionT
      = Ok out) /\
  (forall (X : Type) (partitions : list (beam.PCollection codec.Value))
          (pcol : PrivatePCollection (X * codec.Value))
          (partitionT : codec.FullType)
          (out : beam.PCollection (X * codec.Value)),
      dropUnspecifiedPartitionsForCount partitions pcol partitionT = Ok out ->
      out `sublist_of` col pcol /\
      dropUnspecifiedPartitionsForCount partitions (mkPrivatePCollection out)
        partitionT = Ok out).
Proof.
  split; intros X partitions pcol pt out.
  - unfold dropUnspecifiedPartitions.
    destruct (length partitions =? 1)%nat; [| intros Hout; now inversion Hout].
    destruct (partitions !! 0%nat) as [pc |]; [| discriminate].
    destruct (combine.Combine _ pc) as [input | |]; simpl; try discriminate.
    rewrite !prune_stream. intros Hout. inversion Hout; subst.
    split; [apply List_filter_sublist | now rewrite List_filter_idemp].
  - unfold dropUnspecifiedPartitionsForCount.
    destruct (length partitions =? 1)%nat; [| intros Hout; now inversion Hout].
    destruct (partitions !! 0%nat) as [pc |]; [| discriminate].
    destruct (combine.Combine _ pc) as [input | |]; simpl; try discriminate.
    apply ParDoE_sublist_idemp. intros r l. apply prune_for_count_emits.
Qed.

(** X9. One partition source that is empty is not the same as no source:
    with no source every record passes, with one empty source the
    sum/mean flavor drops every record, and so does the
    count/distinct_id flavor once the records' keys encode. *)
Theorem empty_partition_source_drops_all :
  (forall (X : Type) (pcol : PrivatePCollection (X * kv.Pair))
          (partitionT : codec.EncodedType),
      dropUnspecifiedPartitions [] pcol partitionT = Ok (col pcol) /\
      dropUnspecifiedPartitions [ [] ] pcol partitionT = Ok []) /\
  (forall (X : Type) (pcol : PrivatePCollection (X * codec.Value))
          (partitionT : codec.FullType),
      dropUnspecifiedPartitionsForCount [] pcol partitionT = Ok (col pcol) /\
      ((forall r, r ∈ col pcol ->
          exists b,
            codec.NewElementEncoder (codec.FullType_Type partitionT) r.2
            = Success b) ->
       dropUnspecifiedPartitionsForCount [ [] ] pcol partitionT = Ok [])).
Proof.
  split; intros X [c] pt; (split; [reflexivity |]).
  - unfold dropUnspecifiedPartitions. simpl. rewrite prune_stream.
    induction c as [| r c IH]; [reflexivity | exact IH].
  - unfold dropUnspecifiedPartitionsForCount. simpl.
    induction c as [| [id pk] c IH]; intros Henc; [reflexivity |].
    simpl. unfold prunePartitionsFnForCount.ProcessElement at 1. simpl.
    destruct (Henc (id, pk)) as [b Hb]; [left |]. simpl in Hb. rewrite Hb.
    simpl. rewrite IH by (intros r Hr; apply Henc; now right). reflexivity.
Qed.

(** X10. A partition key of the one source that cannot be encoded ends
    the process in both flavors, whatever the input collection holds,
    even nothing. When the source builds, the sum/mean flavor always
    returns; the count/distinct_id flavor returns exactly when every
    record's partition key can be encoded. *)
Theorem dropUnspecifiedPartitions_failures :
  (forall (X : Type) (partitionsCol : beam.PCollection codec.Value)
          (pcol : PrivatePCollection (X * kv.Pair))
          (partitionT : codec.EncodedType),
      ((exists x err, x ∈ partitionsCol /\
          codec.NewElementEncoder (codec.T partitionT) x = Failure err) ->
       exists msg,
         dropUnspecifiedPartitions [partitionsCol] pcol partitionT = Exit msg) /\
      ((forall x, x ∈ partitionsCol ->
          exists b, codec.NewElementEncoder (codec.T partitionT) x = Success b) ->
       exists out,
         dropUnspecifiedPartitions [partitionsCol] pcol partitionT = Ok out)) /\
  (forall (X : Type) (partitionsCol : beam.PCollection codec.Value)
          (pcol : PrivatePCollection (X * codec.Value))
          (partitionT : codec.FullType),
      ((exists x err, x ∈ partitionsCol /\
          codec.NewElementEncoder (codec.FullType_Type partitionT) x
          = Failure err) ->
       exists msg,
         dropUnspecifiedPartitionsForCount [partitionsCol] pcol partitionT
         = Exit msg) /\
      ((forall x, x ∈ partitionsCol ->
          exists b,
            codec.NewElementEncoder (codec.FullType_Type partitionT) x
            = Success b) ->
       ((forall r, r ∈ col pcol ->
           exists b,
             codec.NewElementEncoder (codec.FullType_Type partitionT) r.2
             = Success b) <->
        exists out,
          dropUnspecifiedPartitionsForCount [partitionsCol] pcol partitionT
          = Ok out))).
Proof.
  split; intros X pc pcol pt; split.
  - intros Hfail.
    apply (Combine_exits (newKVPartitionsHashMapFn pt) pc)
      in Hfail as [msg Hmsg].
    exists msg. unfold dropUnspecifiedPartitions. simpl. now rewrite Hmsg.
  - intros Hall.
    apply (Combine_returns (newKVPartitionsHashMapFn pt) pc)
      in Hall as [input Hinput].
    eexists. unfold dropUnspecifiedPartitions. simpl. rewrite Hinput.
    reflexivity.
  - intros Hfail.
    apply (Combine_exits (newPartitionsHashMapFn pt) pc)
      in Hfail as [msg Hmsg].
    exists msg. unfold dropUnspecifiedPartitionsForCount. simpl.
    now rewrite Hmsg.
  - intros Hall.
    apply (Combine_returns (newPartitionsHashMapFn pt) pc)
      in Hall as [input Hinput].
    unfold dropUnspecifiedPartitionsForCount. simpl. rewrite Hinput. simpl.
    destruct pcol as [c]. simpl. clear Hinput.
    induction c as [| [id pk] c IH]; simpl.
    + split; [intros _; now eexists | intros _ r Hr; inversion Hr].
    + unfold prunePartitionsFnForCount.ProcessElement at 1. simpl.
      destruct (codec.NewElementEncoder _ pk) as [b | err] eqn:Henc; simpl.
      * split.
        -- intros Hrec.
           destruct (proj1 IH) as [outs Houts];
             [intros r Hr; apply Hrec; now right |].
           rewrite Houts.
           destruct (map_index _ _); simpl; eexists; reflexivity.
        -- intros [out Hout] r Hr.
           apply elem_of_cons in Hr as [-> | Hr]; [eauto |].
           apply (proj2 IH); [| exact Hr].
           destruct (beam.ParDoE _ c) as [outs | |]; [eauto | |];
             destruct (map_index _ _); simpl in Hout; discriminate.
      * split; [| intros [out Hout]; discriminate].
        intros Hrec. destruct (Hrec (id, pk)) as [b Hb]; [left |].
        simpl in Hb. congruence.
Qed.

End FilterCollections.

Lemma dropUnspecifiedPartitions_sublist_idempotent_witness :
  [(1%nat, "a"%string); (3%nat, "b"%string)]
    `sublist_of` [(1%nat, "a"%string); (2%nat, "c"%string); (3%nat, "b"%string)] /\
  @dropUnspecifiedPartitionsForCount stub.codec_api nat
    [ ["a"%string; "b"%string] ]
    (mkPrivatePCollection [(1%nat, "a"%string); (3%nat, "b"%string)]) tt
  = Ok [(1%nat, "a"%string); (3%nat, "b"%string)].
Proof.
  apply (proj2 (@dropUnspecifiedPartitions_sublist_idempotent stub.codec_api)
           nat [ ["a"%string; "b"%string] ]
           (mkPrivatePCollection
              [(1%nat, "a"%string); (2%nat, "c"%string); (3%nat, "b"%string)])
           tt).
  vm_compute. reflexivity.
Defined.

Lemma empty_partition_source_drops_all_witness :
  @dropUnspecifiedPartitionsForCount stub.codec_api nat [ [] ]
    (mkPrivatePCollection [(1%nat, "a"%string); (2%nat, "c"%string)]) tt
  = Ok [].
Proof.
  apply (proj2 (proj2 (@empty_partition_source_drops_all stub.codec_api)
                  nat
                  (mkPrivatePCollection
                     [(1%nat, "a"%string); (2%nat, "c"%string)]) tt)).
  intros r Hr. elem_of_cases Hr ltac:(eexists; reflexivity).
Defined.

Lemma dropUnspecifiedPartitions_failures_witness :
  (exists msg,
     @dropUnspecifiedPartitions stub.codec_api nat [ ["a"%string; ""%string] ]
       (mkPrivatePCollection []) (@codec.mkEncodedType stub.codec_api tt)
     = Exit msg) /\
  (exists out,
     @dropUnspecifiedPartitionsForCount stub.codec_api nat [ ["a"%string] ]
       (mkPrivatePCollection [(1%nat, "a"%string); (2%nat, "c"%string)]) tt
     = Ok out).
Proof.
  destruct (@dropUnspecifiedPartitions_failures stub.codec_api) as [Hsum Hcount].
  split.
  - apply (proj1 (Hsum nat ["a"%string; ""%string] (mkPrivatePCollection [])
                    (@codec.mkEncodedType stub.codec_api tt))).
    exists ""%string, "empty"%string. split; [right; left | reflexivity].
  - apply (proj2 (Hcount nat ["a"%string]
                    (mkPrivatePCollection
                       [(1%nat, "a"%string); (2%nat, "c"%string)]) tt)).
    + intros x Hx. elem_of_cases Hx ltac:(eexists; reflexivity).
    + intros r Hr. elem_of_cases Hr ltac:(eexists; reflexivity).
Defined.

(** X11. The two flavors keep the same records: when a sum/mean
    collection carries, for each record of a count/distinct_id
    collection, the encoding of that record's partition key (with any
    encoded value), the sum/mean flavor returns the records that
    correspond to what the count/distinct_id flavor returns. *)
Theorem flavors_agree `{C : codec.API} (X : Type)
    (partitions : list (beam.PCollection codec.Value))
    (c out : beam.PCollection (X * codec.Value))
    (partitionT : codec.FullType)
    (bytes payload : codec.Value -> list Byte.byte) :
  let pair (r : X * codec.Value) : X * kv.Pair :=
    (r.1, kv.mk (bytes r.2) (payload r.2)) in
  (forall r, r ∈ c ->
     codec.NewElementEncoder (codec.FullType_Type partitionT) r.2
     = Success (bytes r.2)) ->
  dropUnspecifiedPartitionsForCount partitions (mkPrivatePCollection c)
    partitionT = Ok out ->
  dropUnspecifiedPartitions partitions (mkPrivatePCollection (map pair c))
    (codec.mkEncodedType _ (codec.FullType_Type partitionT))
  = Ok (map pair out).
Proof.
  intros pair Henc. unfold dropUnspecifiedPartitionsForCount,
    dropUnspecifiedPartitions.
  destruct (length partitions =? 1)%nat;
    [| intros Hout; now inversion Hout].
  destruct (partitions !! 0%nat) as [pc |]; [| discriminate].
  change (newKVPartitionsHashMapFn
            (codec.mkEncodedType C (codec.FullType_Type partitionT)))
    with (newPartitionsHashMapFn partitionT).
  destruct (combine.Combine _ pc) as [input | |]; simpl; try discriminate.
  rewrite (prune_for_count_stream (newPrunePartitionsFnForCount partitionT)
             c input bytes Henc).
  intros Hout. inversion Hout; subst. rewrite prune_stream. f_equal.
  clear. induction c as [| r c IH]; simpl; [reflexivity |].
  destruct (in_partitions input (bytes r.2)); simpl; now rewrite IH.
Qed.

Lemma flavors_agree_witness :
  @dropUnspecifiedPartitions stub.codec_api nat [ ["a"%string; "b"%string] ]
    (mkPrivatePCollection
       (map (fun r : nat * string =>
               (r.1, kv.mk (String.list_byte_of_string r.2) []))
          [(1%nat, "a"%string); (2%nat, "c"%string)]))
    (@codec.mkEncodedType stub.codec_api tt)
  = Ok (map (fun r : nat * string =>
               (r.1, kv.mk (String.list_byte_of_string r.2) []))
          [(1%nat, "a"%string)]).
Proof.
  apply (@flavors_agree stub.codec_api nat [ ["a"%string; "b"%string] ]
           [(1%nat, "a"%string); (2%nat, "c"%string)] [(1%nat, "a"%string)]
           tt String.list_byte_of_string (fun _ => [])).
  - intros r Hr. elem_of_cases Hr ltac:(reflexivity).
  - vm_compute. reflexivity.
Defined.

(** ** Contribution bounding on whole collections *)

Lemma elem_of_values_of {K V : Type} `{EqDecision K} (k : K) (v : V)
    (c : list (K * V)) :
  v ∈ values_of k c <-> (k, v) ∈ c.
Proof.
  unfold values_of. rewrite list_elem_of_fmap. split.
  - intros ([k' v'] & -> & Hin). apply list_elem_of_filter in Hin as [Hk Hin].
    simpl in *. now subst.
  - intros Hin. exists (k, v). split; [reflexivity |].
    apply list_elem_of_filter. now split.
Qed.

Lemma elem_of_flattened {K V : Type} (k : K) (v : V)
    (sampled : list (K * list V)) :
  (k, v) ∈ beam.ParDo (fun kvs : K * list V => flattenValuesFn kvs.1 kvs.2) sampled
  <-> exists vs, (k, vs) ∈ sampled /\ v ∈ vs.
Proof.
  unfold beam.ParDo. rewrite list_elem_of_In, in_flat_map. split.
  - intros ([k' vs] & Hin & Hkv). simpl in Hkv.
    rewrite flattenValuesFn_map in Hkv. apply in_map_iff in Hkv as (v' & Heq & Hv).
    inversion Heq; subst. exists vs.
    split; [now apply list_elem_of_In | now apply list_elem_of_In].
  - intros (vs & Hin & Hv). exists (k, vs). split; [now apply list_elem_of_In |].
    simpl. rewrite flattenValuesFn_map. apply in_map. now apply list_elem_of_In.
Qed.

(** X12. Flattening a [PCollection<K,[]V>] emits each value of each slice
    once, under the slice's key and in the slice's order: the pairs of
    the output are the values of the slices, and their number is the
    total length of the slices. *)
Theorem flattenValuesFn_collection (K V : Type) :
  (forall (key : K) (values : list V),
      flattenValuesFn key values = map (fun v => (key, v)) values) /\
  (forall (sampled : beam.PCollection (K * list V)) (k : K) (v : V),
      (k, v) ∈ beam.ParDo (fun kvs : K * list V => flattenValuesFn kvs.1 kvs.2)
                 sampled
      <-> exists vs, (k, vs) ∈ sampled /\ v ∈ vs) /\
  (forall sampled : beam.PCollection (K * list V),
      length (beam.ParDo (fun kvs : K * list V => flattenValuesFn kvs.1 kvs.2)
                sampled)
      = sum_list (length <$> sampled.*2)).
Proof.
  split; [| split].
  - apply flattenValuesFn_map.
  - intros sampled k v. apply elem_of_flattened.
  - intros sampled. unfold beam.ParDo.
    induction sampled as [| [k vs] sampled IH]; simpl; [reflexivity |].
    rewrite length_app, IH, flattenValuesFn_map, length_map. reflexivity.
Qed.

Section BoundedCollections.
Context `{T : top.API} (Hcontract : top.contract).
Context {K V : Type} `{EqDecision K}.

(** A run of [boundContributions], in terms of what the engine sampled. *)
Lemma boundContributions_run (kvCol : beam.PCollection (K * V)) (L : int64)
    (w : World) :
  0 < L -> int64_range L ->
  exists sampled w',
    boundContributions kvCol L w
    = Ok (beam.ParDo (fun kvs : K * list V => flattenValuesFn kvs.1 kvs.2)
            sampled, w') /\
    top.largest_per_key kvCol L sampled.
Proof.
  intros Hpos Hrange.
  destruct (Hcontract K V _ kvCol L randBool w Hpos)
    as (sampled & w' & Hrun & Hlargest).
  exists sampled, w'. split; [| exact Hlargest].
  unfold boundContributions, bind.
  now rewrite (int_of_int64_in_range L Hrange), Hrun.
Qed.

Lemma largest_per_key_values (kvCol : beam.PCollection (K * V)) (n : Z)
    (sampled : beam.PCollection (K * list V)) (k : K) :
  top.largest_per_key kvCol n sampled ->
  let kept := values_of k
                (beam.ParDo (fun kvs : K * list V => flattenValuesFn kvs.1 kvs.2)
                   sampled) in
  kept ⊆+ values_of k kvCol /\
  length kept = Nat.min (Z.to_nat n) (length (values_of k kvCol)).
Proof.
  intros (Hnodup & Hkeys & Hslices) kept. subst kept.
  destruct (values_of_flattened k sampled Hnodup) as [Habsent Hpresent].
  destruct (decide (k ∈ sampled.*1)) as [Hin | Hnotin].
  - apply list_elem_of_fmap in Hin as ([k' vs] & -> & Hin). simpl in *.
    rewrite (Hpresent vs Hin). now apply Hslices.
  - rewrite (Habsent Hnotin).
    rewrite (values_of_absent k kvCol)
      by (intros Hin; apply Hnotin; now apply Hkeys).
    split; [reflexivity |]. simpl. now rewrite Nat.min_0_r.
Qed.

(** X13. Bounding invents no record and loses no key: every pair of the
    output is a pair of the input, and, the limit being positive, a key
    has records in the output exactly when it has records in the
    input. *)
Theorem boundContributions_keeps_keys (kvCol out : beam.PCollection (K * V))
    (L : int64) (w w' : World) :
  0 < L -> int64_range L ->
  boundContributions kvCol L w = Ok (out, w') ->
  (forall k v, (k, v) ∈ out -> (k, v) ∈ kvCol) /\
  (forall k, k ∈ out.*1 <-> k ∈ kvCol.*1).
Proof.
  intros Hpos Hrange Hout.
  destruct (boundContributions_run kvCol L w Hpos Hrange)
    as (sampled & w1 & Hrun & Hlargest).
  rewrite Hrun in Hout. inversion Hout; subst. clear Hout.
  assert (Hmember : forall k v,
             (k, v) ∈ beam.ParDo
                        (fun kvs : K * list V => flattenValuesFn kvs.1 kvs.2)
                        sampled ->
             (k, v) ∈ kvCol).
  { intros k v Hin. apply elem_of_values_of.
    destruct (largest_per_key_values kvCol L sampled k Hlargest) as [Hsub _].
    apply (elem_of_submseteq _ _ _ (proj2 (elem_of_values_of k v _) Hin) Hsub). }
  split; [exact Hmember |].
  intros k. split.
  - intros Hin. apply list_elem_of_fmap in Hin as ([k' v] & -> & Hin).
    apply list_elem_of_fmap. exists (k', v). split; [reflexivity |].
    now apply Hmember.
  - intros Hin. apply list_elem_of_fmap in Hin as ([k' v] & -> & Hin). simpl.
    destruct (largest_per_key_values kvCol L sampled k' Hlargest) as [_ Hlen].
    apply elem_of_values_of in Hin.
    destruct (values_of k'
                (beam.ParDo (fun kvs : K * list V => flattenValuesFn kvs.1 kvs.2)
                   sampled)) as [| v' kept] eqn:Hkept.
    + destruct (values_of k' kvCol); [inversion Hin |]. simpl in Hlen. lia.
    + assert (Hv' : v' ∈ values_of k'
                (beam.ParDo (fun kvs : K * list V => flattenValuesFn kvs.1 kvs.2)
                   sampled)) by (rewrite Hkept; left).
      apply elem_of_values_of in Hv'.
      apply list_elem_of_fmap. now exists (k', v').
Qed.

(** X14. Bounding again with the same or a larger limit removes nothing:
    every key keeps, up to order, the records the first bounding left
    it. *)
Theorem boundContributions_again (kvCol out1 : beam.PCollection (K * V))
    (L L' : int64) (w w1 : World) :
  0 < L -> L <= L' -> int64_range L -> int64_range L' ->
  boundContributions kvCol L w = Ok (out1, w1) ->
  exists out2 w2,
    boundContributions out1 L' w1 = Ok (out2, w2) /\
    forall k, values_of k out2 ≡ₚ values_of k out1.
Proof.
  intros Hpos Hle Hrange Hrange' Hout1.
  destruct (boundContributions_run kvCol L w Hpos Hrange)
    as (sampled1 & w1' & Hrun1 & Hlargest1).
  rewrite Hrun1 in Hout1. inversion Hout1; subst. clear Hout1.
  destruct (boundContributions_run
              (beam.ParDo (fun kvs : K * list V => flattenValuesFn kvs.1 kvs.2)
                 sampled1) L' w1 ltac:(lia) Hrange')
    as (sampled2 & w2 & Hrun2 & Hlargest2).
  eexists _, w2. split; [exact Hrun2 |].
  intros k.
  destruct (largest_per_key_values kvCol L sampled1 k Hlargest1) as [_ Hlen1].
  destruct (largest_per_key_values _ L' sampled2 k Hlargest2) as [Hsub2 Hlen2].
  apply submseteq_length_Permutation; [exact Hsub2 | lia].
Qed.

End BoundedCollections.

Lemma boundContributions_keeps_keys_witness :
  (("u"%string, 7)
     ∈ [("u"%string, 5); ("u"%string, 7); ("u"%string, 9); ("v"%string, 1)]) /\
  ("v"%string ∈ [("u"%string, 7); ("u"%string, 5); ("v"%string, 1)].*1 <->
   "v"%string
     ∈ [("u"%string, 5); ("u"%string, 7); ("u"%string, 9); ("v"%string, 1)].*1).
Proof.
  destruct (@boundContributions_keeps_keys stub.top_api stub_engine_contract
              string Z _
              [("u"%string, 5); ("u"%string, 7); ("u"%string, 9); ("v"%string, 1)]
              [("u"%string, 7); ("u"%string, 5); ("v"%string, 1)]
              2 stub.world0 (mkWorld (rand_tape stub.world0) 3))
    as [Hmember Hkeys].
  - lia.
  - unfold int64_range. lia.
  - vm_compute. reflexivity.
  - split.
    + apply (Hmember "u"%string 7). left.
    + apply (Hkeys "v"%string).
Defined.

Lemma boundContributions_again_witness :
  exists out2 w2,
    @boundContributions stub.top_api string Z _
      [("u"%string, 7); ("u"%string, 5); ("v"%string, 1)] 3
      (mkWorld (rand_tape stub.world0) 3) = Ok (out2, w2) /\
    forall k : string,
      values_of k out2
        ≡ₚ values_of k [("u"%string, 7); ("u"%string, 5); ("v"%string, 1)].
Proof.
  apply (@boundContributions_again stub.top_api stub_engine_contract
           string Z _
           [("u"%string, 5); ("u"%string, 7); ("u"%string, 9); ("v"%string, 1)]
           [("u"%string, 7); ("u"%string, 5); ("v"%string, 1)]
           2 3 stub.world0 (mkWorld (rand_tape stub.world0) 3)).
  - lia.
  - lia.
  - unfold int64_range. lia.
  - unfold int64_range. lia.
  - vm_compute. reflexivity.
Defined.

(** X15. Calls of [randBool] in a row read the random source word by
    word: the result of the [i]-th call is the parity of the [i]-th next
    word, whatever values are compared, and [n] calls advance the source
    by [n] words. *)
Theorem randBool_draws_in_sequence (V : Type) (n : nat) (a b : V) (w : World) :
  randBools n a b w
  = (map (fun i => (rand_tape w (rand_pos w + i)%nat `mod` 2 ^ 32) `mod` 2 =? 0)
       (seq 0 n),
     mkWorld (rand_tape w) (rand_pos w + n)%nat).
Proof.
  revert w. induction n as [| n IH]; intros [tape pos]; simpl.
  - now rewrite Nat.add_0_r.
  - rewrite IH. simpl. unfold uint32_rem. rewrite Z.mod_mod by lia.
    rewrite Nat.add_0_r, <- seq_shift, map_map. f_equal.
    + f_equal. apply map_ext. intros i.
      now replace (S (pos + i)) with (pos + S i)%nat by lia.
    + f_equal. lia.
Qed.

(** ** Post-processing steps together *)

Lemma length_omap_le {A B : Type} (f : A -> option B) (l : list A) :
  (length (omap f l) <= length l)%nat.
Proof.
  induction l as [| x l IH]; simpl; [lia |].
  change (list_omap A B f l) with (omap f l).
  destruct (f x); simpl; lia.
Qed.

(** X16. The drop step followed by the clamping step keeps exactly the
    records with a present result, in order, each with its result raised
    to zero when it is below zero; no output value is below zero. *)
Theorem drop_then_clamp :
  (forall (V : Type) (c : beam.PCollection (V * option int64)),
      let out := beam.ParDo1 (fun kr => clampNegativePartitionsInt64Fn kr.1 kr.2)
                   (beam.ParDo
                      (fun r => dropThresholdedPartitionsInt64Fn r.1 r.2) c) in
      out = omap (fun r => (fun x => (r.1, Z.max 0 x)) <$> r.2) c /\
      (length out <= length c)%nat /\
      Forall (fun kr => 0 <= kr.2) out) /\
  (forall (V : Type) (c : beam.PCollection (V * option float64)),
      let out := beam.ParDo1 (fun kr => clampNegativePartitionsFloat64Fn kr.1 kr.2)
                   (beam.ParDo
                      (fun r => dropThresholdedPartitionsFloat64Fn r.1 r.2) c) in
      out = omap (fun r =>
                    (fun x => (r.1, if PrimFloat.ltb x 0 then 0%float else x))
                      <$> r.2) c /\
      (length out <= length c)%nat /\
      Forall (fun kr => PrimFloat.ltb kr.2 0 = false) out).
Proof.
  split; intros V c out; subst out.
  - assert (Heq : beam.ParDo1 (fun kr => clampNegativePartitionsInt64Fn kr.1 kr.2)
                    (beam.ParDo
                       (fun r => dropThresholdedPartitionsInt64Fn r.1 r.2) c)
                  = omap (fun r => (fun x => (r.1, Z.max 0 x)) <$> r.2) c).
    { unfold beam.ParDo1, beam.ParDo.
      induction c as [| [v [x |]] c IH]; simpl; [reflexivity | | exact IH].
      rewrite clampInt64_cases. f_equal. exact IH. }
    rewrite Heq. split; [reflexivity |]. split; [apply length_omap_le |].
    apply Forall_forall. intros [v y] Hin.
    apply list_elem_of_omap in Hin as ([v' [x |]] & _ & Hy); simpl in Hy;
      [| discriminate].
    inversion Hy; subst. simpl. lia.
  - assert (Heq : beam.ParDo1
                    (fun kr => clampNegativePartitionsFloat64Fn kr.1 kr.2)
                    (beam.ParDo
                       (fun r => dropThresholdedPartitionsFloat64Fn r.1 r.2) c)
                  = omap (fun r =>
                            (fun x =>
                               (r.1, if PrimFloat.ltb x 0 then 0%float else x))
                              <$> r.2) c).
    { unfold beam.ParDo1, beam.ParDo.
      induction c as [| [v [x |]] c IH]; simpl; [reflexivity | | exact IH].
      unfold clampNegativePartitionsFloat64Fn at 1. simpl.
      destruct (PrimFloat.ltb x 0); f_equal; exact IH. }
    rewrite Heq. split; [reflexivity |]. split; [apply length_omap_le |].
    apply Forall_forall. intros [v y] Hin.
    apply list_elem_of_omap in Hin as ([v' [x |]] & _ & Hy); simpl in Hy;
      [| discriminate].
    inversion Hy; subst. simpl.
    destruct (PrimFloat.ltb x 0) eqn:Hx; [reflexivity | exact Hx].
Qed.

(** X17. Clamping changes a result only when it is below zero: a result
    that is not below zero comes back as it is, clamping twice is
    clamping once, and on int64 results clamping never lowers a result
    and keeps their order. *)
Theorem clamp_idempotent_monotone :
  (forall (V : Type) (v : V) (r r' : int64),
      (0 <= r -> clampNegativePartitionsInt64Fn v r = (v, r)) /\
      clampNegativePartitionsInt64Fn v (clampNegativePartitionsInt64Fn v r).2
      = clampNegativePartitionsInt64Fn v r /\
      r <= (clampNegativePartitionsInt64Fn v r).2 /\
      (r <= r' ->
       (clampNegativePartitionsInt64Fn v r).2
       <= (clampNegativePartitionsInt64Fn v r').2)) /\
  (forall (V : Type) (v : V) (r : float64),
      (PrimFloat.ltb r 0 = false ->
       clampNegativePartitionsFloat64Fn v r = (v, r)) /\
      clampNegativePartitionsFloat64Fn v
        (clampNegativePartitionsFloat64Fn v r).2
      = clampNegativePartitionsFloat64Fn v r).
Proof.
  split.
  - intros V v r r'. rewrite !clampInt64_cases. simpl.
    split; [intros Hr; f_equal; lia |].
    split; [f_equal; lia |]. split; lia.
  - intros V v r. split.
    + intros Hr. unfold clampNegativePartitionsFloat64Fn. now rewrite Hr.
    + unfold clampNegativePartitionsFloat64Fn.
      destruct (PrimFloat.ltb r 0) eqn:Hr; simpl; [reflexivity | now rewrite Hr].
Qed.

Lemma clamp_idempotent_monotone_witness :
  clampNegativePartitionsInt64Fn "p1"%string 4 = ("p1"%string, 4) /\
  (clampNegativePartitionsInt64Fn "p1"%string (-3)).2
  <= (clampNegativePartitionsInt64Fn "p1"%string 4).2 /\
  clampNegativePartitionsFloat64Fn "p1"%string 2.5%float
  = ("p1"%string, 2.5%float).
Proof.
  destruct clamp_idempotent_monotone as [Hint Hfloat].
  split; [| split].
  - destruct (Hint string "p1"%string 4 4) as (Hsame & _). apply Hsame. lia.
  - destruct (Hint string "p1"%string (-3) 4) as (_ & _ & _ & Hmono).
    apply Hmono. lia.
  - destruct (Hfloat string "p1"%string 2.5%float) as (Hsame & _).
    apply Hsame. reflexivity.
Defined.

(** ** Re-keying and decoding *)

Section Decoding.
Context `{C : codec.API} `{Dec : !decoder.API}.

(** X18. Re-keying moves the encoded key out of a [kv.Pair] and leaves
    the encoded value with the metric; decoding the re-keyed pair gives
    the decoded value with the same metric. With a decoder that inverts
    the encoder, a value that was encoded comes back as it was. A value
    that does not decode ends the process. *)
Theorem rekey_then_decode (t : codec.reflect_Type) :
  (forall (kv : kv.Pair) (m : int64) (x : codec.Value),
      decoder.NewElementDecoder t (kv.V kv) = Success x ->
      (rekeyInt64Fn kv m).1 = kv.K kv /\
      decodePairInt64Fn.ProcessElement
        (decodePairInt64Fn.Setup (newDecodePairInt64Fn t)) (rekeyInt64Fn kv m).2
      = Ok (x, m)) /\
  (forall (kv : kv.Pair) (m : float64) (x : codec.Value),
      decoder.NewElementDecoder t (kv.V kv) = Success x ->
      (rekeyFloat64Fn kv m).1 = kv.K kv /\
      decodePairFloat64Fn.ProcessElement
        (decodePairFloat64Fn.Setup (newDecodePairFloat64Fn t))
        (rekeyFloat64Fn kv m).2
      = Ok (x, m)) /\
  ((forall (v : codec.Value) (b : list Byte.byte),
       codec.NewElementEncoder t v = Success b ->
       decoder.NewElementDecoder t b = Success v) ->
   forall (k b : list Byte.byte) (v : codec.Value) (m : int64) (m' : float64),
     codec.NewElementEncoder t v = Success b ->
     decodePairInt64Fn.ProcessElement
       (decodePairInt64Fn.Setup (newDecodePairInt64Fn t))
       (rekeyInt64Fn (kv.mk k b) m).2 = Ok (v, m) /\
     decodePairFloat64Fn.ProcessElement
       (decodePairFloat64Fn.Setup (newDecodePairFloat64Fn t))
       (rekeyFloat64Fn (kv.mk k b) m').2 = Ok (v, m')) /\
  (forall (kv : kv.Pair) (m : int64) (m' : float64) (err : string),
      decoder.NewElementDecoder t (kv.V kv) = Failure err ->
      (exists msg,
         decodePairInt64Fn.ProcessElement
           (decodePairInt64Fn.Setup (newDecodePairInt64Fn t))
           (rekeyInt64Fn kv m).2 = Exit msg) /\
      (exists msg,
         decodePairFloat64Fn.ProcessElement
           (decodePairFloat64Fn.Setup (newDecodePairFloat64Fn t))
           (rekeyFloat64Fn kv m').2 = Exit msg)).
Proof.
  split; [| split; [| split]].
  - intros kv m x Hdec. split; [reflexivity |].
    unfold decodePairInt64Fn.ProcessElement. simpl. now rewrite Hdec.
  - intros kv m x Hdec. split; [reflexivity |].
    unfold decodePairFloat64Fn.ProcessElement. simpl. now rewrite Hdec.
  - intros Hinverse k b v m m' Henc. apply Hinverse in Henc.
    unfold decodePairInt64Fn.ProcessElement,
      decodePairFloat64Fn.ProcessElement. simpl. now rewrite Henc.
  - intros kv m m' err Hdec.
    unfold decodePairInt64Fn.ProcessElement,
      decodePairFloat64Fn.ProcessElement. simpl. rewrite Hdec.
    split; eexists; reflexivity.
Qed.

Lemma decode_stream_int64 (fn : decodePairInt64Fn.t)
    (pairs : beam.PCollection pairInt64.t) :
  (exists out,
     beam.ParDo1E (decodePairInt64Fn.ProcessElement (decodePairInt64Fn.Setup fn))
       pairs = Ok out /\
     out.*2 = pairInt64.M <$> pairs /\
     Forall2 (fun p o =>
                decoder.NewElementDecoder (codec.T (decodePairInt64Fn.XType fn))
                  (pairInt64.X p) = Success o.1) pairs out) \/
  (exists msg p err,
     beam.ParDo1E (decodePairInt64Fn.ProcessElement (decodePairInt64Fn.Setup fn))
       pairs = Exit msg /\
     p ∈ pairs /\
     decoder.NewElementDecoder (codec.T (decodePairInt64Fn.XType fn))
       (pairInt64.X p) = Failure err).
Proof.
  induction pairs as [| p pairs IH]; simpl.
  - left. exists []. repeat split. constructor.
  - unfold decodePairInt64Fn.ProcessElement at 1 3. simpl.
    destruct (decoder.NewElementDecoder _ (pairInt64.X p)) as [x | err] eqn:Hp;
      simpl.
    + destruct IH as [(out & -> & Hm & Hx) | (msg & q & err & -> & Hq & Hfail)];
        simpl.
      * left. eexists. split; [reflexivity |]. simpl.
        split; [now f_equal | now constructor].
      * right. exists msg, q, err. split; [reflexivity |].
        split; [now right | exact Hfail].
    + right. eexists _, p, err. split; [reflexivity |]. split; [left | exact Hp].
Qed.

Lemma decode_stream_float64 (fn : decodePairFloat64Fn.t)
    (pairs : beam.PCollection pairFloat64.t) :
  (exists out,
     beam.ParDo1E
       (decodePairFloat64Fn.ProcessElement (decodePairFloat64Fn.Setup fn))
       pairs = Ok out /\
     out.*2 = pairFloat64.M <$> pairs /\
     Forall2 (fun p o =>
                decoder.NewElementDecoder
                  (codec.T (decodePairFloat64Fn.XType fn))
                  (pairFloat64.X p) = Success o.1) pairs out) \/
  (exists msg p err,
     beam.ParDo1E
       (decodePairFloat64Fn.ProcessElement (decodePairFloat64Fn.Setup fn))
       pairs = Exit msg /\
     p ∈ pairs /\
     decoder.NewElementDecoder (codec.T (decodePairFloat64Fn.XType fn))
       (pairFloat64.X p) = Failure err).
Proof.
  induction pairs as [| p pairs IH]; simpl.
  - left. exists []. repeat split. constructor.
  - unfold decodePairFloat64Fn.ProcessElement at 1 3. simpl.
    destruct (decoder.NewElementDecoder _ (pairFloat64.X p)) as [x | err] eqn:Hp;
      simpl.
    + destruct IH as [(out & -> & Hm & Hx) | (msg & q & err & -> & Hq & Hfail)];
        simpl.
      * left. eexists. split; [reflexivity |]. simpl.
        split; [now f_equal | now constructor].
      * right. exists msg, q, err. split; [reflexivity |].
        split; [now right | exact Hfail].
    + right. eexists _, p, err. split; [reflexivity |]. split; [left | exact Hp].
Qed.

(** X19. Decoding a stream of pairs either returns one output per pair,
    in order, each with the decoded value of its pair and the pair's
    metric unchanged, or ends the process because some pair of the
    stream does not decode; it never panics once set up. *)
Theorem decodePair_stream :
  (forall (fn : decodePairInt64Fn.t) (pairs : beam.PCollection pairInt64.t),
      (exists out,
         beam.ParDo1E
           (decodePairInt64Fn.ProcessElement (decodePairInt64Fn.Setup fn))
           pairs = Ok out /\
         out.*2 = pairInt64.M <$> pairs /\
         Forall2 (fun p o =>
                    decoder.NewElementDecoder
                      (codec.T (decodePairInt64Fn.XType fn))
                      (pairInt64.X p) = Success o.1) pairs out) \/
      (exists msg p err,
         beam.ParDo1E
           (decodePairInt64Fn.ProcessElement (decodePairInt64Fn.Setup fn))
           pairs = Exit msg /\
         p ∈ pairs /\
         decoder.NewElementDecoder (codec.T (decodePairInt64Fn.XType fn))
           (pairInt64.X p) = Failure err)) /\
  (forall (fn : decodePairFloat64Fn.t) (pairs : beam.PCollection pairFloat64.t),
      (exists out,
         beam.ParDo1E
           (decodePairFloat64Fn.ProcessElement (decodePairFloat64Fn.Setup fn))
           pairs = Ok out /\
         out.*2 = pairFloat64.M <$> pairs /\
         Forall2 (fun p o =>
                    decoder.NewElementDecoder
                      (codec.T (decodePairFloat64Fn.XType fn))
                      (pairFloat64.X p) = Success o.1) pairs out) \/
      (exists msg p err,
         beam.ParDo1E
           (decodePairFloat64Fn.ProcessElement (decodePairFloat64Fn.Setup fn))
           pairs = Exit msg /\
         p ∈ pairs /\
         decoder.NewElementDecoder (codec.T (decodePairFloat64Fn.XType fn))
           (pairFloat64.X p) = Failure err)).
Proof.
  split; [exact decode_stream_int64 | exact decode_stream_float64].
Qed.

(** X20. The objects that hold an encoder or a decoder are unusable as
    their constructors return them: before [Setup] every call panics on
    the nil coder. After [Setup] no call panics, and a second [Setup]
    changes nothing. *)
Theorem Setup_is_required :
  (forall (partitionT : codec.FullType) (m : mapAccum.t) (x : codec.Value),
      (exists msg,
         partitionsHashMapFn.AddInput (newPartitionsHashMapFn partitionT) m x
         = Panic msg) /\
      (forall msg,
         partitionsHashMapFn.AddInput
           (partitionsHashMapFn.Setup (newPartitionsHashMapFn partitionT)) m x
         <> Panic msg) /\
      partitionsHashMapFn.Setup
        (partitionsHashMapFn.Setup (newPartitionsHashMapFn partitionT))
      = partitionsHashMapFn.Setup (newPartitionsHashMapFn partitionT)) /\
  (forall (X : Type) (partitionT : codec.FullType) (id : X) (x : codec.Value)
          (input : beam.PCollection (gmap Partition bool)),
      (exists msg,
         prunePartitionsFnForCount.ProcessElement
           (newPrunePartitionsFnForCount partitionT) id x input = Panic msg) /\
      (forall msg,
         prunePartitionsFnForCount.ProcessElement
           (prunePartitionsFnForCount.Setup
              (newPrunePartitionsFnForCount partitionT)) id x input
         <> Panic msg)) /\
  (forall (t : codec.reflect_Type) (p : pairInt64.t) (q : pairFloat64.t),
      (exists msg,
         decodePairInt64Fn.ProcessElement (newDecodePairInt64Fn t) p
         = Panic msg) /\
      (exists msg,
         decodePairFloat64Fn.ProcessElement (newDecodePairFloat64Fn t) q
         = Panic msg) /\
      (forall msg,
         decodePairInt64Fn.ProcessElement
           (decodePairInt64Fn.Setup (newDecodePairInt64Fn t)) p <> Panic msg) /\
      (forall msg,
         decodePairFloat64Fn.ProcessElement
           (decodePairFloat64Fn.Setup (newDecodePairFloat64Fn t)) q
         <> Panic msg)).
Proof.
  split; [| split].
  - intros pt m x. split; [eexists; reflexivity |]. split; [| reflexivity].
    intros msg. unfold partitionsHashMapFn.AddInput. simpl.
    destruct (codec.NewElementEncoder _ x); discriminate.
  - intros X pt id x input. split; [eexists; reflexivity |].
    intros msg. unfold prunePartitionsFnForCount.ProcessElement. simpl.
    destruct (codec.NewElementEncoder _ x); [| discriminate].
    destruct (map_index _ _); discriminate.
  - intros t p q. split; [eexists; reflexivity |].
    split; [eexists; reflexivity |].
    split; intros msg;
      unfold decodePairInt64Fn.ProcessElement,
        decodePairFloat64Fn.ProcessElement; simpl;
      destruct (decoder.NewElementDecoder _ _); discriminate.
Qed.

End Decoding.

Lemma rekey_then_decode_witness :
  decodePairInt64Fn.ProcessElement
    (@decodePairInt64Fn.Setup stub.codec_api stub.decoder_api
       (@newDecodePairInt64Fn stub.codec_api tt))
    (rekeyInt64Fn
       (kv.mk (String.list_byte_of_string "p1")
          (String.list_byte_of_string "v")) 7).2
  = Ok ("v"%string, 7).
Proof.
  destruct (@rekey_then_decode stub.codec_api stub.decoder_api tt)
    as (_ & _ & Hround & _).
  apply (Hround
           ltac:(intros [| c v] b Hb; [discriminate |];
                 inversion Hb; subst; simpl;
                 now rewrite String.string_of_list_byte_of_string)
           (String.list_byte_of_string "p1") (String.list_byte_of_string "v")
           "v"%string 7 0%float eq_refl).
Defined.

(** ** Dispatch on the value kind *)

(** X21. The seven dispatchers agree on every kind: for [reflect.Int64]
    each returns its int64 function, for [reflect.Float64] each returns
    its float64 function, and for any other kind each ends the process;
    no dispatcher returns a function of the other flavor or a nil
    function. *)
Theorem kind_dispatchers_agree `{C : codec.API} (t : codec.reflect_Type)
    (kind : reflect.Kind) :
  (kind = reflect.Int64 /\
   findRekeyFn kind = Ok (inl rekeyInt64Fn) /\
   newDecodePairFn t kind = Ok (inl (newDecodePairInt64Fn t)) /\
   findCorrectToFn kind = Ok (inl (@CorrectToInt64)) /\
   findDropThresholdedPartitionsFn kind
     = Ok (inl (@dropThresholdedPartitionsInt64Fn)) /\
   findClampNegativePartitionsFn kind
     = Ok (inl (@clampNegativePartitionsInt64Fn)) /\
   newPrepareAddPartitionsFn kind = Ok (inl (@prepareAddPartitionsInt64Fn)) /\
   newPrepareAddMeanPartitionsFn kind
     = Ok (inl (@prepareAddPartitionsMeanInt64Fn))) \/
  (kind = reflect.Float64 /\
   findRekeyFn kind = Ok (inr rekeyFloat64Fn) /\
   newDecodePairFn t kind = Ok (inr (newDecodePairFloat64Fn t)) /\
   findCorrectToFn kind = Ok (inr (@CorrectToFloat64)) /\
   findDropThresholdedPartitionsFn kind
     = Ok (inr (@dropThresholdedPartitionsFloat64Fn)) /\
   findClampNegativePartitionsFn kind
     = Ok (inr (@clampNegativePartitionsFloat64Fn)) /\
   newPrepareAddPartitionsFn kind = Ok (inr (@prepareAddPartitionsFloat64Fn)) /\
   newPrepareAddMeanPartitionsFn kind
     = Ok (inr (@prepareAddPartitionsMeanFloat64Fn))) \/
  (kind <> reflect.Int64 /\ kind <> reflect.Float64 /\
   (exists msg, findRekeyFn kind = Exit msg) /\
   (exists msg, newDecodePairFn t kind = Exit msg) /\
   (exists msg, findCorrectToFn kind = Exit msg) /\
   (exists msg, findDropThresholdedPartitionsFn kind = Exit msg) /\
   (exists msg, findClampNegativePartitionsFn kind = Exit msg) /\
   (exists msg, newPrepareAddPartitionsFn kind = Exit msg) /\
   (exists msg, newPrepareAddMeanPartitionsFn kind = Exit msg)).
Proof.
  unfold findRekeyFn, newDecodePairFn, findCorrectToFn,
    findDropThresholdedPartitionsFn, findClampNegativePartitionsFn,
    newPrepareAddPartitionsFn, newPrepareAddMeanPartitionsFn.
  destruct (Z.eqb_spec kind reflect.Int64) as [Hint | Hint].
  - left. repeat (split; [first [exact Hint | reflexivity] |]). reflexivity.
  - destruct (Z.eqb_spec kind reflect.Float64) as [Hfloat | Hfloat].
    + right. left. repeat (split; [first [exact Hfloat | reflexivity] |]).
      reflexivity.
    + right. right. split; [exact Hint |]. split; [exact Hfloat |].
      repeat (split; [eexists; reflexivity |]). eexists. reflexivity.
Qed.

(** ** The combiner for a value kind *)

(** X22. [newBoundedSumFn] returns a combiner only when the value kind is
    [reflect.Int64] or [reflect.Float64], the bound check of that kind
    reports no error and the constructor of that kind returns; the
    combiner is then the constructor's, for int64 values with the bounds
    converted to int64. A bound error ends the process, and so does any
    other value kind. An unknown noise kind ends the process in the
    constructor, before the bound error is looked at. *)
Theorem newBoundedSumFn_outcome `{N : noise.API} `{Ch : checks.API}
    (epsilon delta : float64) (maxPartitionsContributed : int64)
    (lower upper : float64) (noiseKind : noise.Kind) (vKind : reflect.Kind)
    (partitionsSpecified : bool) :
  let made := newBoundedSumFn epsilon delta maxPartitionsContributed lower upper
                noiseKind vKind partitionsSpecified in
  let madeInt64 := newBoundedSumInt64Fn epsilon delta maxPartitionsContributed
                     (checks.int64_of_float64 lower)
                     (checks.int64_of_float64 upper)
                     noiseKind partitionsSpecified in
  let madeFloat64 := newBoundedSumFloat64Fn epsilon delta
                       maxPartitionsContributed lower upper
                       noiseKind partitionsSpecified in
  (forall bsFn, made = Ok bsFn <->
     (vKind = reflect.Int64 /\
      checks.CheckBoundsFloat64AsInt64 "pbeam.newBoundedSumFn" lower upper
        = None /\
      exists fn, madeInt64 = Ok fn /\ bsFn = inl fn) \/
     (vKind = reflect.Float64 /\
      checks.CheckBoundsFloat64 "pbeam.newBoundedSumFn" lower upper = None /\
      exists fn, madeFloat64 = Ok fn /\ bsFn = inr fn)) /\
  (vKind <> reflect.Int64 -> vKind <> reflect.Float64 ->
   exists msg, made = Exit msg) /\
  (forall err,
     (vKind = reflect.Int64 /\
      checks.CheckBoundsFloat64AsInt64 "pbeam.newBoundedSumFn" lower upper
        = Some err /\
      is_Ok madeInt64 = true) \/
     (vKind = reflect.Float64 /\
      checks.CheckBoundsFloat64 "pbeam.newBoundedSumFn" lower upper = Some err /\
      is_Ok madeFloat64 = true) ->
     made = Exit err) /\
  (forall msg,
     (vKind = reflect.Int64 /\ madeInt64 = Exit msg) \/
     (vKind = reflect.Float64 /\ madeFloat64 = Exit msg) ->
     made = Exit msg).
Proof.
  intros made madeInt64 madeFloat64. subst made madeInt64 madeFloat64.
  unfold newBoundedSumFn.
  assert (Hkinds : reflect.Int64 <> reflect.Float64) by discriminate.
  destruct (Z.eqb_spec vKind reflect.Int64) as [-> | Hint].
  - destruct (newBoundedSumInt64Fn _ _ _ _ _ _ _) as [fn | msg | msg]; simpl.
    + destruct (checks.CheckBoundsFloat64AsInt64 _ _ _) as [err |]; simpl.
      * split; [| split; [| split]].
        -- intros bsFn. split; [discriminate |].
           intros [(_ & Hc & _) | (Hk & _)]; [discriminate | congruence].
        -- intros Hne. now contradict Hne.
        -- intros err' [(_ & Herr & _) | (Hk & _)]; congruence.
        -- intros msg [(_ & Hm) | (Hk & _)]; [discriminate | congruence].
      * split; [| split; [| split]].
        -- intros bsFn. split.
           ++ intros Hok. inversion Hok; subst. left. eauto.
           ++ intros [(_ & _ & fn' & Hfn & ->) | (Hk & _)];
                [now inversion Hfn | congruence].
        -- intros Hne. now contradict Hne.
        -- intros err' [(_ & Herr & _) | (Hk & _)]; [discriminate | congruence].
        -- intros msg [(_ & Hm) | (Hk & _)]; [discriminate | congruence].
    + split; [| split; [| split]].
      * intros bsFn. split; [discriminate |].
        intros [(_ & _ & fn' & Hfn & _) | (Hk & _)]; [discriminate | congruence].
      * intros Hne. now contradict Hne.
      * intros err' [(_ & _ & Hok) | (Hk & _)]; [discriminate | congruence].
      * intros msg' [(_ & Hm) | (Hk & _)]; [now inversion Hm | congruence].
    + split; [| split; [| split]].
      * intros bsFn. split; [discriminate |].
        intros [(_ & _ & fn' & Hfn & _) | (Hk & _)]; [discriminate | congruence].
      * intros Hne. now contradict Hne.
      * intros err' [(_ & _ & Hok) | (Hk & _)]; [discriminate | congruence].
      * intros msg' [(_ & Hm) | (Hk & _)]; [discriminate | congruence].
  - destruct (Z.eqb_spec vKind reflect.Float64) as [-> | Hfloat].
    + destruct (newBoundedSumFloat64Fn _ _ _ _ _ _ _) as [fn | msg | msg]; simpl.
      * destruct (checks.CheckBoundsFloat64 _ _ _) as [err |]; simpl.
        -- split; [| split; [| split]].
           ++ intros bsFn. split; [discriminate |].
              intros [(Hk & _) | (_ & Hc & _)]; [congruence | discriminate].
           ++ intros _ Hne. now contradict Hne.
           ++ intros err' [(Hk & _) | (_ & Herr & _)]; congruence.
           ++ intros msg [(Hk & _) | (_ & Hm)]; [congruence | discriminate].
        -- split; [| split; [| split]].
           ++ intros bsFn. split.
              ** intros Hok. inversion Hok; subst. right. eauto.
              ** intros [(Hk & _) | (_ & _ & fn' & Hfn & ->)];
                   [congruence | now inversion Hfn].
           ++ intros _ Hne. now contradict Hne.
           ++ intros err' [(Hk & _) | (_ & Herr & _)]; [congruence | discriminate].
           ++ intros msg [(Hk & _) | (_ & Hm)]; [congruence | discriminate].
      * split; [| split; [| split]].
        -- intros bsFn. split; [discriminate |].
           intros [(Hk & _) | (_ & _ & fn' & Hfn & _)]; [congruence | discriminate].
        -- intros _ Hne. now contradict Hne.
        -- intros err' [(Hk & _) | (_ & _ & Hok)]; [congruence | discriminate].
        -- intros msg' [(Hk & _) | (_ & Hm)]; [congruence | now inversion Hm].
      * split; [| split; [| split]].
        -- intros bsFn. split; [discriminate |].
           intros [(Hk & _) | (_ & _ & fn' & Hfn & _)]; [congruence | discriminate].
        -- intros _ Hne. now contradict Hne.
        -- intros err' [(Hk & _) | (_ & _ & Hok)]; [congruence | discriminate].
        -- intros msg' [(Hk & _) | (_ & Hm)]; [congruence | discriminate].
    + simpl. split; [| split; [| split]].
      * intros bsFn. split; [discriminate |].
        intros [(Hk & _) | (Hk & _)]; congruence.
      * intros _ _. eexists. reflexivity.
      * intros err' [(Hk & _) | (Hk & _)]; congruence.
      * intros msg [(Hk & _) | (Hk & _)]; congruence.
Qed.

Lemma newBoundedSumFn_outcome_witness :
  (exists fn,
     @newBoundedSumFn stub.noise_api stub.checks_api 1%float 0.5%float 3
       0%float 10%float 2 reflect.Int64 false = Ok (inl fn)) /\
  @newBoundedSumFn stub.noise_api stub.checks_api 1%float 0.5%float 3
    10%float 0%float 2 reflect.Float64 false = Exit "pbeam.newBoundedSumFn" /\
  (exists msg,
     @newBoundedSumFn stub.noise_api stub.checks_api 1%float 0.5%float 3
       0%float 10%float 2 3 false = Exit msg).
Proof.
  split; [| split].
  - eexists.
    apply (proj1 (@newBoundedSumFn_outcome stub.noise_api stub.checks_api
                    1%float 0.5%float 3 0%float 10%float 2 reflect.Int64 false)).
    left. split; [reflexivity |]. split; [reflexivity |].
    eexists. split; reflexivity.
  - apply (proj1 (proj2 (proj2
             (@newBoundedSumFn_outcome stub.noise_api stub.checks_api
                1%float 0.5%float 3 10%float 0%float 2 reflect.Float64 false)))).
    right. split; [reflexivity |]. split; reflexivity.
  - apply (proj1 (proj2
             (@newBoundedSumFn_outcome stub.noise_api stub.checks_api
                1%float 0.5%float 3 0%float 10%float 2 3 false)));
      discriminate.
Defined.

(** ** Contribution bounding: the limit and the random tag *)

Lemma boundContributions_unfold `{T : top.API} {K V : Type} `{EqDecision K}
    (kvCol : beam.PCollection (K * V)) (L : int64) (w : World) :
  int64_range L ->
  boundContributions kvCol L w
  = match top.LargestPerKey K V kvCol L randBool w with
    | Ok (sampled, w') =>
        Ok (beam.ParDo (fun kvs : K * list V => flattenValuesFn kvs.1 kvs.2)
              sampled, w')
    | Exit msg => Exit msg
    | Panic msg => Panic msg
    end.
Proof.
  intros Hrange. unfold boundContributions, bind.
  rewrite (int_of_int64_in_range L Hrange).
  now destruct (top.LargestPerKey K V kvCol L randBool w) as [[sampled w'] | |].
Qed.

(** C8, as the code has it. [boundContributions] hands the collection, the
    limit and [randBool] as the comparison function to the engine's
    [top.LargestPerKey] and flattens what comes back; it has no error
    path of its own, so it returns exactly when that transform returns
    and ends as that transform ends. With an engine whose transform
    meets its contract and a limit [L] of at least one, it returns, and
    the collection it returns holds, for every key, a part of the key's
    records of at most [L] records: all of them when the key has no more
    than [L], exactly [L] otherwise. *)
Theorem boundContributions_spec `{T : top.API} :
  (forall (K V : Type) (eqK : EqDecision K)
          (kvCol : beam.PCollection (K * V)) (L : int64) (w : World),
      int64_range L ->
      boundContributions kvCol L w
      = match top.LargestPerKey K V kvCol L randBool w with
        | Ok (sampled, w') =>
            Ok (beam.ParDo
                  (fun kvs : K * list V => flattenValuesFn kvs.1 kvs.2)
                  sampled, w')
        | Exit msg => Exit msg
        | Panic msg => Panic msg
        end) /\
  (top.contract ->
   forall (K V : Type) (eqK : EqDecision K)
          (kvCol : beam.PCollection (K * V)) (L : int64) (w : World),
     1 <= L -> int64_range L ->
     exists sampled out w',
       top.LargestPerKey K V kvCol L randBool w = Ok (sampled, w') /\
       out = beam.ParDo (fun kvs : K * list V => flattenValuesFn kvs.1 kvs.2)
               sampled /\
       boundContributions kvCol L w = Ok (out, w') /\
       forall k : K,
         values_of k out ⊆+ values_of k kvCol /\
         Z.of_nat (length (values_of k out)) <= L /\
         (Z.of_nat (length (values_of k kvCol)) <= L ->
            values_of k out ≡ₚ values_of k kvCol) /\
         (L <= Z.of_nat (length (values_of k kvCol)) ->
            Z.of_nat (length (values_of k out)) = L)).
Proof.
  split.
  - intros K V eqK kvCol L w Hrange. now apply boundContributions_unfold.
  - intros Hcontract K V eqK kvCol L w Hpos Hrange.
    destruct (Hcontract K V eqK kvCol L randBool w ltac:(lia))
      as (sampled & w' & Hrun & Hlargest).
    exists sampled,
      (beam.ParDo (fun kvs : K * list V => flattenValuesFn kvs.1 kvs.2) sampled),
      w'.
    split; [exact Hrun |]. split; [reflexivity |].
    split; [rewrite (boundContributions_unfold kvCol L w Hrange); now rewrite Hrun |].
    intros k.
    destruct (largest_per_key_values kvCol L sampled k Hlargest) as [Hsub Hlen].
    split; [exact Hsub |]. split; [lia |]. split.
    + intros Hfew. apply submseteq_length_Permutation; [exact Hsub | lia].
    + intros Hmany. lia.
Qed.

(** C8 as stated fails: no collection holds at most [-1] records of a
    key, so for the limit [-1] the operation cannot both return and keep
    the bound, on any engine. *)
Lemma boundContributions_limit_counterexample :
  ~ (forall (T : top.API), top.contract ->
     forall (kvCol : beam.PCollection (string * Z)) (L : int64) (w : World),
       int64_range L ->
       exists out w',
         @boundContributions T string Z _ kvCol L w = Ok (out, w') /\
         forall k : string, Z.of_nat (length (values_of k out)) <= L).
Proof.
  intros Hclaim.
  destruct (Hclaim stub.top_api stub_engine_contract
              [("u"%string, 5); ("u"%string, 7)] (-1) stub.world0)
    as (out & w' & _ & Hbound).
  - unfold int64_range. lia.
  - specialize (Hbound "u"%string). lia.
Qed.

(** On the sequential engine a limit of zero ends in a panic, and the
    records kept for a positive limit change with the random source. *)
Example boundContributions_zero_limit :
  @boundContributions stub.top_api string Z _
    [("u"%string, 5); ("u"%string, 7)] 0 stub.world0
  = Panic "n must be > 0".
Proof. reflexivity. Qed.

Example boundContributions_follows_the_source :
  (@boundContributions stub.top_api string Z _
     [("u"%string, 5); ("u"%string, 7); ("u"%string, 9)] 2 stub.world0
   = Ok ([("u"%string, 7); ("u"%string, 5)], mkWorld (rand_tape stub.world0) 3)) /\
  (@boundContributions stub.top_api string Z _
     [("u"%string, 5); ("u"%string, 7); ("u"%string, 9)] 2
     (mkWorld (fun _ => 1) 0)
   = Ok ([("u"%string, 9); ("u"%string, 7)], mkWorld (fun _ => 1) 3)).
Proof. split; vm_compute; reflexivity. Qed.

Lemma boundContributions_spec_witness :
  exists sampled out w',
    @top.LargestPerKey stub.top_api string Z _
      [("u"%string, 5); ("u"%string, 7); ("u"%string, 9); ("v"%string, 1)] 2
      randBool stub.world0 = Ok (sampled, w') /\
    out = beam.ParDo (fun kvs : string * list Z => flattenValuesFn kvs.1 kvs.2)
            sampled /\
    @boundContributions stub.top_api string Z _
      [("u"%string, 5); ("u"%string, 7); ("u"%string, 9); ("v"%string, 1)] 2
      stub.world0 = Ok (out, w') /\
    forall k : string,
      values_of k out
        ⊆+ values_of k
             [("u"%string, 5); ("u"%string, 7); ("u"%string, 9); ("v"%string, 1)] /\
      Z.of_nat (length (values_of k out)) <= 2 /\
      (Z.of_nat
         (length
            (values_of k
               [("u"%string, 5); ("u"%string, 7); ("u"%string, 9);
                ("v"%string, 1)])) <= 2 ->
       values_of k out
         ≡ₚ values_of k
              [("u"%string, 5); ("u"%string, 7); ("u"%string, 9); ("v"%string, 1)]) /\
      (2 <= Z.of_nat
              (length
                 (values_of k
                    [("u"%string, 5); ("u"%string, 7); ("u"%string, 9);
                     ("v"%string, 1)])) ->
       Z.of_nat (length (values_of k out)) = 2).
Proof.
  apply (proj2 (@boundContributions_spec stub.top_api) stub_engine_contract
           string Z _
           [("u"%string, 5); ("u"%string, 7); ("u"%string, 9); ("v"%string, 1)]
           2 stub.world0).
  - lia.
  - unfold int64_range. lia.
Defined.

(** ** One unit's sampling and the other units' records *)

Section Simulation.








End Simulation.





Section Marginal.
Context {K V : Type} `{EqDecision K}.








End Marginal.





(** With fair flips the first record kept for [u] below is [7] one time
    in four, whatever [v] holds. *)
Example sampling_probability :
  Qeq
    (flips.prob
       (fun out =>
          match values_of "u"%string out with x :: _ => x =? 7 | [] => false end)
       (flips.bounded
          [("v"%string, 1); ("u"%string, 5); ("u"%string, 7); ("u"%string, 9)]
          2))
    (1 # 4)%Q.
Proof. vm_compute. reflexivity. Qed.

(** The law does follow the order in which the unit's own values arrive:
    the same three values in another order give another probability. *)
Example sampling_law_follows_arrival_order :
  ~ Qeq
      (flips.prob
         (fun out =>
            match values_of "u"%string out with x :: _ => x =? 7 | [] => false end)
         (flips.bounded
            [("u"%string, 5); ("u"%string, 7); ("u"%string, 9)] 2))
      (flips.prob
         (fun out =>
            match values_of "u"%string out with x :: _ => x =? 7 | [] => false end)
         (flips.bounded
            [("u"%string, 7); ("u"%string, 5); ("u"%string, 9)] 2)).
Proof. vm_compute. discriminate. Qed.
